(** * pino-toolkit: configuration merge, sink resolution and the singleton logger

    A shallow embedding of [src/index.ts] (the TypeScript module that follows
    the README).  JavaScript objects whose key order is observable
    ([levelFiles], walked with [Object.entries]) are association lists in
    insertion order; context records are finite maps; the module-level
    [loggerInstance] and the identity of logger objects live in an explicit
    [World] threaded by a small state monad. *)

From Stdlib Require Import ZArith Ascii String Permutation.
From stdpp Require Import base option strings list gmap.

Open Scope Z_scope.
Open Scope string_scope.
Open Scope list_scope.

(** ** Core types *)

(** [type LogLevel = 'fatal' | 'error' | 'warn' | 'info' | 'debug' | 'trace'] *)
Inductive LogLevel := Fatal | Error | Warn | Info | Debug | Trace.

#[global] Instance LogLevel_eq_dec : EqDecision LogLevel.
Proof. solve_decision. Defined.

(** The string a level has at run time (it is used in a template literal). *)
Definition level_name (l : LogLevel) : string :=
  match l with
  | Fatal => "fatal" | Error => "error" | Warn => "warn"
  | Info => "info" | Debug => "debug" | Trace => "trace"
  end.

(** Values stored under the keys of a context record ([unknown] in the source). *)
Inductive Value :=
| VUndefined
| VNull
| VBool (b : bool)
| VNumber (n : Z)
| VString (s : string).

(** [type LogContext = Record<string, unknown>] *)
Abbreviation LogContext := (gmap string Value).

(** [type LogMessage = string | Record<string, unknown>] *)
Inductive LogMessage :=
| Text (s : string)
| Fields (o : LogContext).

(** ** Configuration records *)

Record RotationConfig := {
  rot_interval : string;
  rot_size : string;
  rot_maxFiles : Z
}.

(** [Partial<RotationConfig>]: every key may be absent. *)
Record PartialRotationConfig := {
  prot_interval : option string;
  prot_size : option string;
  prot_maxFiles : option Z
}.

Record LevelFileConfig := {
  lf_enabled : bool;
  lf_destination : option string
}.

Record RedactionConfig := {
  red_paths : list string;
  red_censor : option string
}.

Record LoggerConfig := {
  cfg_level : option LogLevel;
  cfg_prettyPrint : option bool;
  cfg_destination : option string;
  cfg_rotation : option PartialRotationConfig;
  cfg_levelFiles : option (list (LogLevel * LevelFileConfig));
  cfg_redaction : option RedactionConfig;
  cfg_baseContext : option LogContext;
  cfg_serializers : option (gmap string (Value -> Value))
}.

Record DefaultConfig := {
  dc_level : LogLevel;
  dc_prettyPrint : bool;
  dc_destination : string;
  dc_rotation : RotationConfig;
  dc_levelFiles : list (LogLevel * LevelFileConfig);
  dc_redaction : option RedactionConfig;
  dc_baseContext : option LogContext;
  dc_serializers : option (gmap string (Value -> Value))
}.

(** The object literal [{}] at type [LoggerConfig]. *)
Definition emptyConfig : LoggerConfig :=
  {| cfg_level := None; cfg_prettyPrint := None; cfg_destination := None;
     cfg_rotation := None; cfg_levelFiles := None; cfg_redaction := None;
     cfg_baseContext := None; cfg_serializers := None |}.

(** ** JavaScript object operations used by the module *)

(** [o[k] = v] on an object in insertion order: an existing key keeps its
    place, a new key goes to the end. *)
Fixpoint assign {K V : Type} `{EqDecision K} (o : list (K * V)) (k : K) (v : V)
  : list (K * V) :=
  match o with
  | [] => [(k, v)]
  | (k', v') :: o' =>
      if decide (k' = k) then (k', v) :: o' else (k', v') :: assign o' k v
  end.

(** [{ ...o, ...ext }]: the keys of [ext] are assigned onto a copy of [o], in
    the order [ext] lists them.  Spreading [undefined] adds nothing. *)
Definition spread {K V : Type} `{EqDecision K} (o : list (K * V))
    (ext : option (list (K * V))) : list (K * V) :=
  fold_left (fun acc kv => assign acc kv.1 kv.2) (default [] ext) o.

(** [{ ...d, ...p }] for a rotation record and a partial one. *)
Definition spread_rotation (d : RotationConfig) (p : option PartialRotationConfig)
  : RotationConfig :=
  match p with
  | None => d
  | Some p =>
      {| rot_interval := default (rot_interval d) (prot_interval p);
         rot_size := default (rot_size d) (prot_size p);
         rot_maxFiles := default (rot_maxFiles d) (prot_maxFiles p) |}
  end.

(** A full rotation record read at type [Partial<RotationConfig>]. *)
Definition as_partial (r : RotationConfig) : PartialRotationConfig :=
  {| prot_interval := Some (rot_interval r);
     prot_size := Some (rot_size r);
     prot_maxFiles := Some (rot_maxFiles r) |}.

(** [{ ...a, ...b }] on context records: the keys of [b] win. *)
Definition spread_context (a b : LogContext) : LogContext := b ∪ a.

(** Truthiness of an optional string: [undefined] and [''] are falsy. *)
Definition truthy_string (s : option string) : bool :=
  match s with
  | Some s => negb (String.eqb s "")
  | None => false
  end.

(** Truthiness of an optional boolean. *)
Definition truthy_bool (b : option bool) : bool := default false b.

(** ** Transports and stream descriptors *)

Record PrettyOptions := {
  pretty_colorize : bool;
  pretty_translateTime : string;
  pretty_ignore : string;
  pretty_messageFormat : string
}.

Record RollOptions := {
  roll_file : string;
  roll_frequency : string;
  roll_size : string;
  roll_maxFiles : Z;
  roll_mkdir : bool;
  roll_dirname : option string
}.

(** [pino.transport({ target, options })], kept as the description handed to it. *)
Inductive Transport :=
| pino_pretty (options : PrettyOptions)
| pino_roll (options : RollOptions).

(** The object a stream filter is applied to: a routed record with its numeric
    level. *)
Record LogRecord := {
  rec_level : Z;
  rec_msg : option string;
  rec_fields : LogContext
}.

(** [interface PinoDestination { level; stream; filter? }] *)
Record PinoDestination := {
  pd_level : LogLevel;
  pd_stream : Transport;
  pd_filter : option (LogRecord -> bool)
}.

(** Modelled from the spec: [pino.levels.values], the numeric table behind the
    fixed order fatal > error > warn > info > debug > trace of section 4.1
    (the numbers are pino's; the module only reads the table). *)
Definition levels_values (l : LogLevel) : Z :=
  match l with
  | Fatal => 60 | Error => 50 | Warn => 40
  | Info => 30 | Debug => 20 | Trace => 10
  end.

(** ** Inputs that set a key to [undefined]

    [LoggerConfig] above describes an input by the keys it has: a key is
    either left out ([None]) or holds a value.  The optional keys of the
    TypeScript types also admit a key that is present with the value
    [undefined], which an object spread copies like any other value and which
    [??] and a truthiness test treat like a missing one.  The definitions of
    this part follow the same source functions on such inputs, up to the call
    of [pino] that [initLogger] ends with. *)

(** A key of an object: left out, present with value [undefined], or present
    with a value. *)
Inductive Key (A : Type) : Type :=
| Absent
| Undefined
| Given (a : A).

Arguments Absent {A}.
Arguments Undefined {A}.
Arguments Given {A} a.

(** [o.k], the value read from a key ([None] is [undefined]). *)
Definition read {A : Type} (k : Key A) : option A :=
  match k with
  | Given a => Some a
  | Absent | Undefined => None
  end.

(** [o.k ?? d] *)
Definition nullish {A : Type} (k : Key A) (d : A) : A :=
  match k with
  | Given a => a
  | Absent | Undefined => d
  end.

(** One key of [{ ...d, ...c }]: a key that [c] has, whatever its value,
    replaces that of [d]. *)
Definition copy_key {A : Type} (d c : Key A) : Key A :=
  match c with
  | Absent => d
  | Undefined | Given _ => c
  end.

(** Truthiness of the value of a string key, a boolean key, an object key. *)
Definition truthy_string_key (k : Key string) : bool :=
  match k with
  | Given s => negb (String.eqb s "")
  | Absent | Undefined => false
  end.

Definition truthy_bool_key (k : Key bool) : bool :=
  match k with
  | Given b => b
  | Absent | Undefined => false
  end.

Definition truthy_object_key {A : Type} (k : Key A) : bool :=
  match k with
  | Given _ => true
  | Absent | Undefined => false
  end.

(** [Partial<RotationConfig>] with its keys as the input has them; also the
    result of spreading one over the defaults, whose three keys are then all
    present. *)
Record PartialRotationConfigU := {
  urot_interval : Key string;
  urot_size : Key string;
  urot_maxFiles : Key Z
}.

(** [LoggerConfig] with its keys as the input has them.  An entry of
    [levelFiles] may itself be [undefined] ([None]). *)
Record LoggerConfigU := {
  ucfg_level : Key LogLevel;
  ucfg_prettyPrint : Key bool;
  ucfg_destination : Key string;
  ucfg_rotation : Key PartialRotationConfigU;
  ucfg_levelFiles : Key (list (LogLevel * option LevelFileConfig));
  ucfg_redaction : Key RedactionConfig;
  ucfg_baseContext : Key LogContext;
  ucfg_serializers : Key (gmap string (Value -> Value))
}.

(** The object literal [{}]. *)
Definition emptyConfigU : LoggerConfigU :=
  {| ucfg_level := Absent; ucfg_prettyPrint := Absent; ucfg_destination := Absent;
     ucfg_rotation := Absent; ucfg_levelFiles := Absent; ucfg_redaction := Absent;
     ucfg_baseContext := Absent; ucfg_serializers := Absent |}.

(** The options handed to [pino-roll]; a rotation value may be [undefined]. *)
Record RollOptionsU := {
  uroll_file : string;
  uroll_frequency : option string;
  uroll_size : option string;
  uroll_maxFiles : option Z;
  uroll_mkdir : bool;
  uroll_dirname : option string
}.

Inductive TransportU :=
| upino_pretty (options : PrettyOptions)
| upino_roll (options : RollOptionsU).

Record PinoDestinationU := {
  upd_level : LogLevel;
  upd_stream : TransportU;
  upd_filter : option (LogRecord -> bool)
}.

(** How a call ends: with a value, or by throwing. *)
Inductive JsError :=
| TypeError (property : string).

Inductive Completion (A : Type) : Type :=
| Normal (a : A)
| Throw (e : JsError).

Arguments Normal {A} a.
Arguments Throw {A} e.

(** [Array.prototype.forEach] with a callback that may throw, threading what
    the callback mutates. *)
Fixpoint forEach {A S : Type} (callback : S -> A -> Completion S) (l : list A) (s : S)
  : Completion S :=
  match l with
  | [] => Normal s
  | x :: l =>
      match callback s x with
      | Normal s => forEach callback l s
      | Throw e => Throw e
      end
  end.

(** [{ ...d, ...p }] for the default rotation and the rotation key of the
    input: spreading [undefined] adds nothing, and a subkey the input has is
    copied with its value, [undefined] included. *)
Definition spread_rotationU (d : RotationConfig) (p : Key PartialRotationConfigU)
  : PartialRotationConfigU :=
  match p with
  | Given p =>
      {| urot_interval := copy_key (Given (rot_interval d)) (urot_interval p);
         urot_size := copy_key (Given (rot_size d)) (urot_size p);
         urot_maxFiles := copy_key (Given (rot_maxFiles d)) (urot_maxFiles p) |}
  | Absent | Undefined =>
      {| urot_interval := Given (rot_interval d);
         urot_size := Given (rot_size d);
         urot_maxFiles := Given (rot_maxFiles d) |}
  end.


(** ** A simple path library, used to run the module on concrete inputs *)

(** Segments joined by ["/"]. *)
Fixpoint slash_join (segments : list string) : string :=
  match segments with
  | [] => "."
  | [s] => s
  | s :: rest => s +:+ "/" +:+ slash_join rest
  end.

(** Index of the last ["/"] of [s] at or after position [i], if any. *)
Fixpoint last_slash (s : string) (i : nat) : option nat :=
  match s with
  | EmptyString => None
  | String c s' =>
      match last_slash s' (S i) with
      | Some j => Some j
      | None => if Ascii.eqb c "/"%char then Some i else None
      end
  end.

(** Everything before the last ["/"]. *)
Definition slash_dirname (p : string) : string :=
  match last_slash p 0 with
  | Some 0%nat => "/"
  | Some j => String.substring 0 j p
  | None => "."
  end.

Section Toolkit.

(** The process environment and the path utilities of [pathe], which the
    module only calls. *)
Variable cwd : string.
Variable NODE_ENV : option string.
Variable dirname : string -> string.
Variable join : list string -> string.

(** [const defaultConfig: DefaultConfig] *)
Definition defaultConfig : DefaultConfig :=
  {| dc_level := Info;
     dc_prettyPrint :=
       negb (bool_decide (NODE_ENV = Some "production"));
     dc_destination := join [cwd; "logs"; "app.log"];
     dc_rotation :=
       {| rot_interval := "1d"; rot_size := "10M"; rot_maxFiles := 5 |};
     dc_levelFiles :=
       [ (Fatal, {| lf_enabled := true; lf_destination := None |});
         (Error, {| lf_enabled := true; lf_destination := None |});
         (Warn, {| lf_enabled := false; lf_destination := None |});
         (Info, {| lf_enabled := false; lf_destination := None |});
         (Debug, {| lf_enabled := false; lf_destination := None |});
         (Trace, {| lf_enabled := false; lf_destination := None |}) ];
     dc_redaction := None;
     dc_baseContext := None;
     dc_serializers := None |}.

(** [function createPrettyStream(level)] *)
Definition createPrettyStream (level : LogLevel) : PinoDestination :=
  {| pd_level := level;
     pd_stream :=
       pino_pretty
         {| pretty_colorize := true;
            pretty_translateTime := "SYS:standard";
            pretty_ignore := "pid,hostname";
            pretty_messageFormat := "{msg} {context}" |};
     pd_filter := None |}.

(** [function createRotationStream(config, level)] *)
Definition createRotationStream (config : LoggerConfig) (level : LogLevel)
  : PinoDestination :=
  let mergedRotation := spread_rotation (dc_rotation defaultConfig) (cfg_rotation config) in
  let destination := default (dc_destination defaultConfig) (cfg_destination config) in
  let dirPath := dirname destination in
  {| pd_level := level;
     pd_stream :=
       pino_roll
         {| roll_file := destination;
            roll_frequency := rot_interval mergedRotation;
            roll_size := rot_size mergedRotation;
            roll_maxFiles := rot_maxFiles mergedRotation;
            roll_mkdir := true;
            roll_dirname := Some dirPath |};
     pd_filter := None |}.

(** [function createLevelStream(level, destination, rotation?)] *)
Definition createLevelStream (level : LogLevel) (destination : string)
    (rotation : option PartialRotationConfig) : PinoDestination :=
  let mergedRotation := spread_rotation (dc_rotation defaultConfig) rotation in
  {| pd_level := level;
     pd_stream :=
       pino_roll
         {| roll_file := destination;
            roll_frequency := rot_interval mergedRotation;
            roll_size := rot_size mergedRotation;
            roll_maxFiles := rot_maxFiles mergedRotation;
            roll_mkdir := true;
            roll_dirname := None |};
     pd_filter := Some (fun obj => Z.eqb (rec_level obj) (levels_values level)) |}.

(** The body of the [forEach] callback of [createStreams]: one entry of
    [config.levelFiles]. *)
Definition pushLevelFile (config : LoggerConfig) (streams : list PinoDestination)
    (entry : LogLevel * LevelFileConfig) : list PinoDestination :=
  let '(levelName, levelConfig) := entry in
  if lf_enabled levelConfig then
    let baseDir :=
      dirname (default (dc_destination defaultConfig) (cfg_destination config)) in
    let destination :=
      default (join [baseDir; level_name levelName +:+ ".log"])
              (lf_destination levelConfig) in
    streams ++ [createLevelStream levelName destination (cfg_rotation config)]
  else streams.

(** [function createStreams(config)] *)
Definition createStreams (config : LoggerConfig) : list PinoDestination :=
  let streams := [] in
  let level := default (dc_level defaultConfig) (cfg_level config) in
  let streams :=
    if truthy_bool (cfg_prettyPrint config)
    then streams ++ [createPrettyStream level] else streams in
  let streams :=
    if truthy_string (cfg_destination config)
    then streams ++ [createRotationStream config level] else streams in
  let streams :=
    match cfg_levelFiles config with
    | Some levelFiles => fold_left (pushLevelFile config) levelFiles streams
    | None => streams
    end in
  streams.

(** ** The pino logger object *)

(** [pino.stdTimeFunctions] *)
Inductive TimeFunction := epochTime | isoTime | unixTime | nullTime.

Record RedactOptions := {
  redact_paths : list string;
  redact_censor : string
}.

(** The [LoggerOptions] that [initLogger] fills in.  [formatters.level] is the
    constant function [label => ({ level: label })]: [opt_level_label] records
    that the label, not the number, is printed. *)
Record LoggerOptions := {
  opt_level : option LogLevel;
  opt_timestamp : TimeFunction;
  opt_level_label : bool;
  opt_base : LogContext;
  opt_serializers : option (gmap string (Value -> Value));
  opt_redact : option RedactOptions
}.

(** Modelled from the spec: the Router of sections 3 and 4.4, which is pino's
    [Logger] and is not part of the sources of this repository.  It holds the
    options it was built with, the resolved sink list, the mutable current
    level and the bound-context layers of a child (innermost first). *)
Record Logger := {
  lg_level : LogLevel;
  lg_options : LoggerOptions;
  lg_streams : list PinoDestination;
  lg_bindings : list LogContext
}.

(** Modelled from the spec: [pino.multistream] keeps the sinks in the order
    they were resolved in (section 4.3: the order governs iteration). *)
Definition multistream (streams : list PinoDestination) : list PinoDestination :=
  streams.

(** Modelled from the spec: [pino(options, stream)]; the current level starts
    at the configured one (pino's own default is info). *)
Definition pino (options : LoggerOptions) (stream : list PinoDestination) : Logger :=
  {| lg_level := default Info (opt_level options);
     lg_options := options;
     lg_streams := stream;
     lg_bindings := [] |}.

(** Modelled from the spec: [logger.level = level] (section 4.4, setLevel). *)
Definition Logger_set_level (lg : Logger) (level : LogLevel) : Logger :=
  {| lg_level := level;
     lg_options := lg_options lg;
     lg_streams := lg_streams lg;
     lg_bindings := lg_bindings lg |}.

(** Modelled from the spec: [logger.child(bindings)] (section 4.4, child): a
    new logger on the same sink list with one more bound-context layer. *)
Definition Logger_child (lg : Logger) (bindings : LogContext) : Logger :=
  {| lg_level := lg_level lg;
     lg_options := lg_options lg;
     lg_streams := lg_streams lg;
     lg_bindings := bindings :: lg_bindings lg |}.

(** ** Routing *)

(** Section 4.1: the first level is at least as severe as the second. *)
Definition at_least_as_severe (l1 l2 : LogLevel) : bool :=
  (levels_values l2 <=? levels_values l1)%Z.

(** Modelled from the spec: the record a Router hands to its sinks (section
    4.4): caller keys win over bound context, which wins over base context. *)
Definition merged_record (lg : Logger) (explicitLevel : LogLevel)
    (obj : LogContext) (msg : option string) : LogRecord :=
  {| rec_level := levels_values explicitLevel;
     rec_msg := msg;
     rec_fields := obj ∪ (⋃ lg_bindings lg) ∪ opt_base (lg_options lg) |}.

(** Modelled from the spec: does a sink admit an event (section 4.4)?  A sink
    with a filter is an exact sink and is asked its filter; any other sink is
    a threshold sink and admits what is at least as severe as the Router's
    current level. *)
Definition admits (lg : Logger) (explicitLevel : LogLevel) (rec : LogRecord)
    (d : PinoDestination) : bool :=
  match pd_filter d with
  | Some filter => filter rec
  | None => at_least_as_severe explicitLevel (lg_level lg)
  end.

(** Modelled from the spec: [route(event, explicitLevel)] of section 4.4, the
    dispatch that pino performs: every sink, in resolved order, whose filter
    matches receives the merged record. *)
Definition route (lg : Logger) (explicitLevel : LogLevel)
    (obj : LogContext) (msg : option string) : list (PinoDestination * LogRecord) :=
  let rec := merged_record lg explicitLevel obj msg in
  map (fun d => (d, rec)) (List.filter (admits lg explicitLevel rec) (lg_streams lg)).

(** The sinks an event reaches. *)
Definition reached (lg : Logger) (explicitLevel : LogLevel)
    (obj : LogContext) (msg : option string) : list PinoDestination :=
  map fst (route lg explicitLevel obj msg).

(** ** initLogger *)

(** One key of [{ ...defaultConfig, ...config }]: the key of [config] if it is
    there, the default otherwise.  [None] is a key the input leaves out; an
    input that sets a key to [undefined] is followed by [mergedConfigU]
    below. *)
Definition spread_key {A : Type} (d : option A) (c : option A) : option A :=
  match c with
  | Some x => Some x
  | None => d
  end.

(** [const mergedConfig] of [initLogger]. *)
Definition mergedConfig (config : LoggerConfig) : LoggerConfig :=
  {| cfg_level := spread_key (Some (dc_level defaultConfig)) (cfg_level config);
     cfg_prettyPrint :=
       spread_key (Some (dc_prettyPrint defaultConfig)) (cfg_prettyPrint config);
     cfg_destination :=
       spread_key (Some (dc_destination defaultConfig)) (cfg_destination config);
     cfg_rotation :=
       Some (as_partial
               (spread_rotation (dc_rotation defaultConfig) (cfg_rotation config)));
     cfg_levelFiles :=
       Some (spread (dc_levelFiles defaultConfig) (cfg_levelFiles config));
     cfg_redaction := spread_key (dc_redaction defaultConfig) (cfg_redaction config);
     cfg_baseContext :=
       spread_key (dc_baseContext defaultConfig) (cfg_baseContext config);
     cfg_serializers :=
       spread_key (dc_serializers defaultConfig) (cfg_serializers config) |}.

(** [const options: LoggerOptions] of [initLogger], after the two optional
    assignments. *)
Definition loggerOptions (mergedConfig : LoggerConfig) : LoggerOptions :=
  {| opt_level := cfg_level mergedConfig;
     opt_timestamp := isoTime;
     opt_level_label := true;
     opt_base := default ∅ (cfg_baseContext mergedConfig);
     opt_serializers := cfg_serializers mergedConfig;
     opt_redact :=
       match cfg_redaction mergedConfig with
       | Some redaction =>
           Some {| redact_paths := red_paths redaction;
                   redact_censor := default "[REDACTED]" (red_censor redaction) |}
       | None => None
       end |}.

(** [function initLogger(config: LoggerConfig = {})] *)
Definition initLogger (config : option LoggerConfig) : Logger :=
  let config := default emptyConfig config in
  let mergedConfig := mergedConfig config in
  let options := loggerOptions mergedConfig in
  pino options (multistream (createStreams mergedConfig)).

(** ** The module state and the exported operations *)

(** A call [logger[level](obj, msg)] made by the module. *)
Record Call := {
  call_logger : nat;
  call_level : LogLevel;
  call_obj : LogContext;
  call_msg : option string
}.

(** The heap of logger objects (a reference is an index), the module-level
    [let loggerInstance: Logger | null], and the calls made so far. *)
Record World := {
  heap : list Logger;
  loggerInstance : option nat;
  calls : list Call
}.

Definition M (A : Type) : Type := World -> A * World.

Definition ret {A : Type} (a : A) : M A := fun w => (a, w).

Definition bind {A B : Type} (m : M A) (k : A -> M B) : M B :=
  fun w => let '(a, w') := m w in k a w'.

Notation "'let*' x ':=' m 'in' k" := (bind m (fun x => k))
  (at level 10, x name, m at level 100, k at level 200).

(** A freshly built object gets the next reference. *)
Definition new_object (lg : Logger) : M nat :=
  fun w => (length (heap w),
            {| heap := heap w ++ [lg];
               loggerInstance := loggerInstance w;
               calls := calls w |}).

Definition read_loggerInstance : M (option nat) :=
  fun w => (loggerInstance w, w).

Definition write_loggerInstance (v : option nat) : M unit :=
  fun w => (tt, {| heap := heap w; loggerInstance := v; calls := calls w |}).

(** [logger.level = level] on the object behind a reference. *)
Definition assign_level (r : nat) (level : LogLevel) : M unit :=
  fun w => (tt,
            {| heap := alter (fun lg => Logger_set_level lg level) r (heap w);
               loggerInstance := loggerInstance w;
               calls := calls w |}).

(** [logger.child(bindings)] on the object behind a reference; the child is a
    new object.  (A reference the module holds always points into the heap;
    at any other number nothing is built.) *)
Definition call_child (r : nat) (bindings : LogContext) : M nat :=
  fun w =>
    match heap w !! r with
    | Some lg => new_object (Logger_child lg bindings) w
    | None => (r, w)
    end.

(** [logger[level](obj)] and [logger[level](obj, msg)]. *)
Definition call_level_method (r : nat) (level : LogLevel) (obj : LogContext)
    (msg : option string) : M unit :=
  fun w => (tt,
            {| heap := heap w;
               loggerInstance := loggerInstance w;
               calls := calls w ++
                 [{| call_logger := r; call_level := level;
                     call_obj := obj; call_msg := msg |}] |}).

(** [function getLogger(config?)] *)
Definition getLogger (config : option LoggerConfig) : M nat :=
  let* inst := read_loggerInstance in
  match inst with
  | None =>
      let* r := new_object (initLogger config) in
      let* _ := write_loggerInstance (Some r) in
      ret r
  | Some r => ret r
  end.

(** [function createLogFunction(level)] *)
Definition createLogFunction (level : LogLevel)
  : LogMessage -> option LogContext -> M unit :=
  fun message context =>
    let* logger := getLogger None in
    match message with
    | Text message =>
        call_level_method logger level (default ∅ context) (Some message)
    | Fields message =>
        call_level_method logger level
          (spread_context message (default ∅ context)) None
    end.

Definition fatal := createLogFunction Fatal.
Definition error := createLogFunction Error.
Definition warn := createLogFunction Warn.
Definition info := createLogFunction Info.
Definition debug := createLogFunction Debug.
Definition trace := createLogFunction Trace.

(** [function setLevel(level)] *)
Definition setLevel (level : LogLevel) : M unit :=
  let* logger := getLogger None in
  assign_level logger level.

(** [function child(bindings)] *)
Definition child (bindings : LogContext) : M nat :=
  let* logger := getLogger None in
  call_child logger bindings.

(** [function resetLogger()] *)
Definition resetLogger : M unit := write_loggerInstance None.

(** [function createLogger(config)] *)
Definition createLogger (config : LoggerConfig) : M nat :=
  new_object (initLogger (Some config)).

(** [function log(level, message, context?)] *)
Definition log (level : LogLevel) (message : LogMessage)
    (context : option LogContext) : M unit :=
  let* logger := getLogger None in
  match message with
  | Text message =>
      call_level_method logger level (default ∅ context) (Some message)
  | Fields message =>
      call_level_method logger level
        (spread_context message (default ∅ context)) None
  end.

(** The world a process starts in. *)
Definition initial_world : World :=
  {| heap := []; loggerInstance := None; calls := [] |}.

(** The singleton, when there is one, is an object of the heap. *)
Definition world_ok (w : World) : Prop :=
  match loggerInstance w with
  | Some r => (r < length (heap w))%nat
  | None => True
  end.

(** The two arguments [createLogFunction] and [log] hand to the logger
    method, as one reads them off the two branches on [typeof message]. *)
Definition event_obj (message : LogMessage) (context : option LogContext) : LogContext :=
  match message with
  | Text _ => default ∅ context
  | Fields message => spread_context message (default ∅ context)
  end.

Definition event_msg (message : LogMessage) : option string :=
  match message with
  | Text message => Some message
  | Fields _ => None
  end.

(** ** The module on inputs that set a key to [undefined] *)

(** [function createPrettyStream(level)] *)
Definition createPrettyStreamU (level : LogLevel) : PinoDestinationU :=
  {| upd_level := level;
     upd_stream :=
       upino_pretty
         {| pretty_colorize := true;
            pretty_translateTime := "SYS:standard";
            pretty_ignore := "pid,hostname";
            pretty_messageFormat := "{msg} {context}" |};
     upd_filter := None |}.

(** [function createRotationStream(config, level)] *)
Definition createRotationStreamU (config : LoggerConfigU) (level : LogLevel)
  : PinoDestinationU :=
  let mergedRotation :=
    spread_rotationU (dc_rotation defaultConfig) (ucfg_rotation config) in
  let destination := nullish (ucfg_destination config) (dc_destination defaultConfig) in
  let dirPath := dirname destination in
  {| upd_level := level;
     upd_stream :=
       upino_roll
         {| uroll_file := destination;
            uroll_frequency := read (urot_interval mergedRotation);
            uroll_size := read (urot_size mergedRotation);
            uroll_maxFiles := read (urot_maxFiles mergedRotation);
            uroll_mkdir := true;
            uroll_dirname := Some dirPath |};
     upd_filter := None |}.

(** [function createLevelStream(level, destination, rotation?)] *)
Definition createLevelStreamU (level : LogLevel) (destination : string)
    (rotation : Key PartialRotationConfigU) : PinoDestinationU :=
  let mergedRotation := spread_rotationU (dc_rotation defaultConfig) rotation in
  {| upd_level := level;
     upd_stream :=
       upino_roll
         {| uroll_file := destination;
            uroll_frequency := read (urot_interval mergedRotation);
            uroll_size := read (urot_size mergedRotation);
            uroll_maxFiles := read (urot_maxFiles mergedRotation);
            uroll_mkdir := true;
            uroll_dirname := None |};
     upd_filter := Some (fun obj => Z.eqb (rec_level obj) (levels_values level)) |}.

(** The body of the [forEach] callback of [createStreams].  Reading
    [levelConfig.enabled] of an entry that is [undefined] throws a
    [TypeError]. *)
Definition pushLevelFileU (config : LoggerConfigU) (streams : list PinoDestinationU)
    (entry : LogLevel * option LevelFileConfig) : Completion (list PinoDestinationU) :=
  let '(levelName, levelConfig) := entry in
  match levelConfig with
  | None => Throw (TypeError "enabled")
  | Some levelConfig =>
      if lf_enabled levelConfig then
        let baseDir :=
          dirname (nullish (ucfg_destination config) (dc_destination defaultConfig)) in
        let destination :=
          default (join [baseDir; level_name levelName +:+ ".log"])
                  (lf_destination levelConfig) in
        Normal (streams ++
                  [createLevelStreamU levelName destination (ucfg_rotation config)])
      else Normal streams
  end.

(** [function createStreams(config)] *)
Definition createStreamsU (config : LoggerConfigU) : Completion (list PinoDestinationU) :=
  let streams := [] in
  let level := nullish (ucfg_level config) (dc_level defaultConfig) in
  let streams :=
    if truthy_bool_key (ucfg_prettyPrint config)
    then streams ++ [createPrettyStreamU level] else streams in
  let streams :=
    if truthy_string_key (ucfg_destination config)
    then streams ++ [createRotationStreamU config level] else streams in
  match ucfg_levelFiles config with
  | Given levelFiles => forEach (pushLevelFileU config) levelFiles streams
  | Absent | Undefined => Normal streams
  end.

(** [const mergedConfig] of [initLogger]. *)
Definition mergedConfigU (config : LoggerConfigU) : LoggerConfigU :=
  {| ucfg_level := copy_key (Given (dc_level defaultConfig)) (ucfg_level config);
     ucfg_prettyPrint :=
       copy_key (Given (dc_prettyPrint defaultConfig)) (ucfg_prettyPrint config);
     ucfg_destination :=
       copy_key (Given (dc_destination defaultConfig)) (ucfg_destination config);
     ucfg_rotation :=
       Given (spread_rotationU (dc_rotation defaultConfig) (ucfg_rotation config));
     ucfg_levelFiles :=
       Given (spread (prod_map id Some <$> dc_levelFiles defaultConfig)
                     (read (ucfg_levelFiles config)));
     ucfg_redaction := copy_key Absent (ucfg_redaction config);
     ucfg_baseContext := copy_key Absent (ucfg_baseContext config);
     ucfg_serializers := copy_key Absent (ucfg_serializers config) |}.

(** [const options: LoggerOptions] of [initLogger], after the two optional
    assignments. *)
Definition loggerOptionsU (mergedConfig : LoggerConfigU) : LoggerOptions :=
  {| opt_level := read (ucfg_level mergedConfig);
     opt_timestamp := isoTime;
     opt_level_label := true;
     opt_base := nullish (ucfg_baseContext mergedConfig) ∅;
     opt_serializers := read (ucfg_serializers mergedConfig);
     opt_redact :=
       match ucfg_redaction mergedConfig with
       | Given redaction =>
           Some {| redact_paths := red_paths redaction;
                   redact_censor := default "[REDACTED]" (red_censor redaction) |}
       | Absent | Undefined => None
       end |}.

(** The call [pino(options, pino.multistream(streams))] that [initLogger]
    ends with. *)
Record PinoCall := {
  pino_options : LoggerOptions;
  pino_streams : list PinoDestinationU
}.

(** [function initLogger(config: LoggerConfig = {})], up to its call of
    [pino]: the options are built first, then [createStreams] runs. *)
Definition initLoggerU (config : option LoggerConfigU) : Completion PinoCall :=
  let config := default emptyConfigU config in
  let mergedConfig := mergedConfigU config in
  let options := loggerOptionsU mergedConfig in
  match createStreamsU mergedConfig with
  | Normal streams => Normal {| pino_options := options; pino_streams := streams |}
  | Throw e => Throw e
  end.

(** An input without [undefined], read as an input of this part. *)
Definition given {A : Type} (o : option A) : Key A :=
  match o with
  | Some a => Given a
  | None => Absent
  end.

Definition with_keys (config : LoggerConfig) : LoggerConfigU :=
  {| ucfg_level := given (cfg_level config);
     ucfg_prettyPrint := given (cfg_prettyPrint config);
     ucfg_destination := given (cfg_destination config);
     ucfg_rotation :=
       given ((fun p => {| urot_interval := given (prot_interval p);
                           urot_size := given (prot_size p);
                           urot_maxFiles := given (prot_maxFiles p) |})
              <$> cfg_rotation config);
     ucfg_levelFiles :=
       given ((fun levelFiles : list (LogLevel * LevelFileConfig) =>
                 prod_map id Some <$> levelFiles)
              <$> cfg_levelFiles config);
     ucfg_redaction := given (cfg_redaction config);
     ucfg_baseContext := given (cfg_baseContext config);
     ucfg_serializers := given (cfg_serializers config) |}.

(** A sink of the first part, read as a sink of this part. *)
Definition with_values (d : PinoDestination) : PinoDestinationU :=
  {| upd_level := pd_level d;
     upd_stream :=
       match pd_stream d with
       | pino_pretty o => upino_pretty o
       | pino_roll o =>
           upino_roll
             {| uroll_file := roll_file o;
                uroll_frequency := Some (roll_frequency o);
                uroll_size := Some (roll_size o);
                uroll_maxFiles := Some (roll_maxFiles o);
                uroll_mkdir := roll_mkdir o;
                uroll_dirname := roll_dirname o |}
       end;
     upd_filter := pd_filter d |}.

(** The rotation value a rotating sink is created with, for one subkey of
    the input's [rotation] and its default. *)
Definition rotation_value {A : Type} (config : LoggerConfigU)
    (subkey : PartialRotationConfigU -> Key A) (d : A) : option A :=
  match ucfg_rotation config with
  | Given rotation => read (copy_key (Given d) (subkey rotation))
  | Absent | Undefined => Some d
  end.

(** The entries of the input's [levelFiles]. *)
Definition levelFiles_entries (config : LoggerConfigU)
  : list (LogLevel * option LevelFileConfig) :=
  default [] (read (ucfg_levelFiles config)).

(** The sinks [createStreams] has pushed before it walks [levelFiles]. *)
Definition thresholdStreamsU (config : LoggerConfigU) : list PinoDestinationU :=
  let level := nullish (ucfg_level config) (dc_level defaultConfig) in
  (if truthy_bool_key (ucfg_prettyPrint config) then [createPrettyStreamU level] else [])
  ++ (if truthy_string_key (ucfg_destination config)
      then [createRotationStreamU config level] else []).

(** The sink the [forEach] callback pushes for an entry that is an object. *)
Definition levelStreamU (config : LoggerConfigU) (entry : LogLevel * LevelFileConfig)
  : list PinoDestinationU :=
  if lf_enabled entry.2 then
    [createLevelStreamU entry.1
       (default
          (join [dirname (nullish (ucfg_destination config)
                                  (dc_destination defaultConfig));
                 level_name entry.1 +:+ ".log"])
          (lf_destination entry.2))
       (ucfg_rotation config)]
  else [].

(** ** The specification's reading of the resolver and of the merger *)

(** The six levels from the most severe to the least severe. *)
Definition all_levels : list LogLevel := [Fatal; Error; Warn; Info; Debug; Trace].

(** [o[k]] on an object in insertion order. *)
Fixpoint entry {K V : Type} `{EqDecision K} (o : list (K * V)) (k : K) : option V :=
  match o with
  | [] => None
  | (k', v) :: o' => if decide (k' = k) then Some v else entry o' k
  end.

(** Section 4.3, step 3, in the spec's words: the sink of one level, if its
    [levelFiles] entry is enabled. *)
Definition spec_level_sink (resolved : LoggerConfig) (l : LogLevel)
  : list PinoDestination :=
  match entry (default [] (cfg_levelFiles resolved)) l with
  | Some levelConfig =>
      if lf_enabled levelConfig then
        [createLevelStream l
           (default
              (join [dirname (default (dc_destination defaultConfig)
                                      (cfg_destination resolved));
                     level_name l +:+ ".log"])
              (lf_destination levelConfig))
           (cfg_rotation resolved)]
      else []
  | None => []
  end.

(** Section 4.3 in the spec's words: pretty, then primary, then the per-level
    sinks from fatal to trace. *)
Definition spec_sinks (resolved : LoggerConfig) : list PinoDestination :=
  let level := default (dc_level defaultConfig) (cfg_level resolved) in
  (if truthy_bool (cfg_prettyPrint resolved) then [createPrettyStream level] else [])
  ++ (if truthy_string (cfg_destination resolved)
      then [createRotationStream resolved level] else [])
  ++ flat_map (spec_level_sink resolved) all_levels.

(** [{ ...config, levelFiles }] *)
Definition with_levelFiles (config : LoggerConfig)
    (levelFiles : list (LogLevel * LevelFileConfig)) : LoggerConfig :=
  {| cfg_level := cfg_level config;
     cfg_prettyPrint := cfg_prettyPrint config;
     cfg_destination := cfg_destination config;
     cfg_rotation := cfg_rotation config;
     cfg_levelFiles := Some levelFiles;
     cfg_redaction := cfg_redaction config;
     cfg_baseContext := cfg_baseContext config;
     cfg_serializers := cfg_serializers config |}.

(** Section 4.2 in the spec's words: the field of an input configuration that
    breaks a constraint, if one does.  (A level outside the six is not a value
    of [LogLevel].)  Sections 4.2 and 7 have construction fail for such an
    input, naming this field, before any sink is built. *)
Definition spec_offending_field (config : LoggerConfigU) : option string :=
  match ucfg_rotation config with
  | Given rotation =>
      match urot_maxFiles rotation with
      | Given n => if (n <=? 0)%Z then Some "rotation.maxFiles" else None
      | Absent | Undefined => None
      end
  | Absent | Undefined => None
  end ∪
  match ucfg_redaction config with
  | Given redaction =>
      match red_paths redaction with
      | [] => Some "redaction.paths"
      | _ :: _ => None
      end
  | Absent | Undefined => None
  end.

(** ** Sample configurations *)

(** [{ rotation: { size: '50M' } }] *)
Definition config_size_50M : LoggerConfig :=
  {| cfg_level := None; cfg_prettyPrint := None; cfg_destination := None;
     cfg_rotation :=
       Some {| prot_interval := None; prot_size := Some "50M"; prot_maxFiles := None |};
     cfg_levelFiles := None; cfg_redaction := None;
     cfg_baseContext := None; cfg_serializers := None |}.


(** [{ prettyPrint: false, destination: '',
       levelFiles: { fatal: { enabled: false }, error: { enabled: false } } }] *)
Definition config_no_sinks : LoggerConfig :=
  {| cfg_level := None; cfg_prettyPrint := Some false; cfg_destination := Some "";
     cfg_rotation := None;
     cfg_levelFiles :=
       Some [ (Fatal, {| lf_enabled := false; lf_destination := None |});
              (Error, {| lf_enabled := false; lf_destination := None |}) ];
     cfg_redaction := None; cfg_baseContext := None; cfg_serializers := None |}.

(** [{ prettyPrint: false, rotation: { maxFiles: 0 } }] *)
Definition config_maxFiles_0 : LoggerConfigU :=
  {| ucfg_level := Absent; ucfg_prettyPrint := Given false; ucfg_destination := Absent;
     ucfg_rotation :=
       Given {| urot_interval := Absent; urot_size := Absent;
                urot_maxFiles := Given 0 |};
     ucfg_levelFiles := Absent; ucfg_redaction := Absent;
     ucfg_baseContext := Absent; ucfg_serializers := Absent |}.

(** [{ prettyPrint: false, redaction: { paths: [] } }] *)
Definition config_no_paths : LoggerConfigU :=
  {| ucfg_level := Absent; ucfg_prettyPrint := Given false; ucfg_destination := Absent;
     ucfg_rotation := Absent; ucfg_levelFiles := Absent;
     ucfg_redaction := Given {| red_paths := []; red_censor := None |};
     ucfg_baseContext := Absent; ucfg_serializers := Absent |}.

(** [{ prettyPrint: undefined, destination: undefined,
       rotation: { size: undefined, maxFiles: 3 } }] *)
Definition config_undefined_keys : LoggerConfigU :=
  {| ucfg_level := Absent; ucfg_prettyPrint := Undefined;
     ucfg_destination := Undefined;
     ucfg_rotation :=
       Given {| urot_interval := Absent; urot_size := Undefined;
                urot_maxFiles := Given 3 |};
     ucfg_levelFiles := Absent; ucfg_redaction := Absent;
     ucfg_baseContext := Absent; ucfg_serializers := Absent |}.

(** [{ levelFiles: { warn: undefined } }] *)
Definition config_warn_undefined : LoggerConfigU :=
  {| ucfg_level := Absent; ucfg_prettyPrint := Absent; ucfg_destination := Absent;
     ucfg_rotation := Absent;
     ucfg_levelFiles := Given [(Warn, None)];
     ucfg_redaction := Absent;
     ucfg_baseContext := Absent; ucfg_serializers := Absent |}.

(** [{ prettyPrint: false, destination: 'logs/app.log',
       levelFiles: { error: { enabled: true }, fatal: { enabled: false } } }] *)
Definition config_error_file : LoggerConfig :=
  {| cfg_level := None; cfg_prettyPrint := Some false;
     cfg_destination := Some "logs/app.log";
     cfg_rotation := None;
     cfg_levelFiles :=
       Some [ (Error, {| lf_enabled := true; lf_destination := None |});
              (Fatal, {| lf_enabled := false; lf_destination := None |}) ];
     cfg_redaction := None; cfg_baseContext := None; cfg_serializers := None |}.

(** ** A run of logging calls *)

(** A caller's straight-line sequence of [log(level, message, context)]
    calls, as in [examples/basic.ts]. *)
Fixpoint log_all (events : list (LogLevel * LogMessage * option LogContext))
  : M unit :=
  match events with
  | [] => ret tt
  | (level, message, context) :: events =>
      let* _ := log level message context in
      log_all events
  end.

(** The call one event makes on the logger behind [logger]. *)
Definition call_of (logger : nat) (event : LogLevel * LogMessage * option LogContext)
  : Call :=
  let '(level, message, context) := event in
  {| call_logger := logger; call_level := level;
     call_obj := event_obj message context; call_msg := event_msg message |}.

(** * Properties *)

(** ** Objects in insertion order *)

Lemma assign_keys {K V : Type} `{EqDecision K} (o : list (K * V)) k v :
  k ∈ o.*1 → (assign o k v).*1 = o.*1.
Proof.
  induction o as [|[k' v'] o IH]; cbn; intros Hk.
  - by apply elem_of_nil in Hk.
  - destruct (decide (k' = k)) as [->|Hne]; cbn; [done|].
    apply elem_of_cons in Hk as [->|Hk]; [done|]. by rewrite IH.
Qed.

Lemma spread_keys {K V : Type} `{EqDecision K} (ext o : list (K * V)) :
  ext.*1 ⊆ o.*1 → (spread o (Some ext)).*1 = o.*1.
Proof.
  unfold spread; cbn. revert o.
  induction ext as [|[k v] ext IH]; cbn; intros o Hsub; [done|].
  assert (Hk : k ∈ o.*1) by (apply Hsub; left).
  rewrite IH; rewrite assign_keys; try done.
  intros x Hx. apply Hsub. by right.
Qed.

Lemma assign_comm {K V : Type} `{EqDecision K} (o : list (K * V)) k1 v1 k2 v2 :
  k1 ≠ k2 → k1 ∈ o.*1 →
  assign (assign o k1 v1) k2 v2 = assign (assign o k2 v2) k1 v1.
Proof.
  intros Hne. induction o as [|[k' v'] o IH]; intros Hin.
  - by apply elem_of_nil in Hin.
  - cbn in Hin. apply elem_of_cons in Hin. cbn.
    destruct (decide (k' = k1)) as [Hk1|Hk1], (decide (k' = k2)) as [Hk2|Hk2];
      simplify_eq; cbn; repeat (case_decide; simplify_eq; cbn); try done.
    destruct Hin as [?|Hin]; [done|]. by rewrite IH.
Qed.

Lemma spread_permutation {K V : Type} `{EqDecision K} (ext ext' o : list (K * V)) :
  NoDup ext.*1 → ext.*1 ⊆ o.*1 → ext ≡ₚ ext' →
  spread o (Some ext) = spread o (Some ext').
Proof.
  unfold spread; cbn. intros Hnd Hsub Hp. revert o Hnd Hsub.
  induction Hp as [|[k v] l l' Hp IH|[k1 v1] [k2 v2] l|l l' l'' Hp1 IH1 Hp2 IH2];
    intros o Hnd Hsub; cbn in *.
  - done.
  - apply NoDup_cons in Hnd as [_ Hnd]. apply IH; [done|].
    rewrite assign_keys by (apply Hsub; left).
    intros x Hx. apply Hsub. by right.
  - rewrite (assign_comm o k2 v2 k1 v1); [done| |apply Hsub; left].
    apply NoDup_cons in Hnd as [Hn _]. intros ->. apply Hn. left.
  - rewrite IH1 by done. apply IH2; by rewrite <- Hp1.
Qed.

Lemma elem_entry {K V : Type} `{EqDecision K} (o : list (K * V)) k v :
  NoDup o.*1 → (k, v) ∈ o → entry o k = Some v.
Proof.
  induction o as [|[k' v'] o IH]; cbn; intros Hnd Hin.
  - by apply elem_of_nil in Hin.
  - apply NoDup_cons in Hnd as [Hn Hnd].
    apply elem_of_cons in Hin as [?|Hin]; simplify_eq.
    + by rewrite decide_True.
    + rewrite decide_False; [auto|]. intros ->. apply Hn.
      apply list_elem_of_fmap. by exists (k, v).
Qed.

Lemma entry_assign_eq {K V : Type} `{EqDecision K} (o : list (K * V)) k v :
  entry (assign o k v) k = Some v.
Proof.
  induction o as [|[k' v'] o IH]; cbn.
  - by rewrite decide_True.
  - destruct (decide (k' = k)) as [->|Hne]; cbn.
    + by rewrite decide_True.
    + by rewrite decide_False.
Qed.

Lemma entry_assign_ne {K V : Type} `{EqDecision K} (o : list (K * V)) k k' v :
  k' ≠ k → entry (assign o k' v) k = entry o k.
Proof.
  intros Hne. induction o as [|[k0 v0] o IH]; cbn.
  - by rewrite decide_False.
  - destruct (decide (k0 = k')) as [->|Hk0]; cbn.
    + by rewrite !decide_False.
    + by rewrite IH.
Qed.

Lemma entry_spread_other {K V : Type} `{EqDecision K} (ext o : list (K * V)) k :
  k ∉ ext.*1 → entry (spread o (Some ext)) k = entry o k.
Proof.
  unfold spread; cbn. revert o.
  induction ext as [|[k' v'] ext IH]; cbn; intros o Hk; [done|].
  apply not_elem_of_cons in Hk as [Hne Hk].
  rewrite IH by done. by apply entry_assign_ne.
Qed.

Lemma entry_spread {K V : Type} `{EqDecision K} (ext o : list (K * V)) k v :
  NoDup ext.*1 → (k, v) ∈ ext → entry (spread o (Some ext)) k = Some v.
Proof.
  revert o. induction ext as [|[k' v'] ext IH]; cbn; intros o Hnd Hin.
  - by apply elem_of_nil in Hin.
  - apply NoDup_cons in Hnd as [Hn Hnd].
    apply elem_of_cons in Hin as [Heq|Hin].
    + injection Heq as <- <-.
      change (entry (spread (assign o k v) (Some ext)) k = Some v).
      rewrite entry_spread_other by done. apply entry_assign_eq.
    + by apply (IH (assign o k' v')).
Qed.

(** ** The sink resolver *)

Lemma all_levels_complete (l : LogLevel) : l ∈ all_levels.
Proof. unfold all_levels. destruct l; set_solver. Qed.

Lemma all_levels_NoDup : NoDup all_levels.
Proof. compute_done. Qed.

Lemma merged_levelFiles_keys (levelFiles : option (list (LogLevel * LevelFileConfig))) :
  (spread (dc_levelFiles defaultConfig) levelFiles).*1 = all_levels.
Proof.
  destruct levelFiles as [ext|]; [|done].
  rewrite spread_keys; [done|].
  intros l _. apply all_levels_complete.
Qed.

Lemma fold_pushLevelFile config levelFiles streams :
  fold_left (pushLevelFile config) levelFiles streams
  = streams ++ flat_map (pushLevelFile config []) levelFiles.
Proof.
  revert streams. induction levelFiles as [|[l lc] lfs IH]; intros streams; cbn.
  - by rewrite app_nil_r.
  - rewrite IH. destruct (lf_enabled lc); cbn; [|done].
    by rewrite <- app_assoc.
Qed.

Lemma spec_level_sink_entry resolved levelFiles l :
  cfg_levelFiles resolved = Some levelFiles →
  spec_level_sink resolved l
  = match entry levelFiles l with
    | Some levelConfig => pushLevelFile resolved [] (l, levelConfig)
    | None => []
    end.
Proof.
  intros Hlf. unfold spec_level_sink. rewrite Hlf. cbn.
  destruct (entry levelFiles l) as [lc|]; [|done].
  by destruct (lf_enabled lc).
Qed.

Lemma flat_map_levelFiles_part resolved levelFiles part :
  cfg_levelFiles resolved = Some levelFiles →
  (∀ l lc, (l, lc) ∈ part → entry levelFiles l = Some lc) →
  flat_map (pushLevelFile resolved []) part
  = flat_map (spec_level_sink resolved) part.*1.
Proof.
  intros Hlf.
  induction part as [|[l lc] part IH]; intros Hall; cbn; [done|].
  rewrite (spec_level_sink_entry _ _ _ Hlf), (Hall l lc) by left.
  f_equal. apply IH. intros l' lc' Hin. apply Hall. by right.
Qed.

Lemma flat_map_levelFiles resolved levelFiles :
  cfg_levelFiles resolved = Some levelFiles →
  NoDup levelFiles.*1 →
  flat_map (pushLevelFile resolved []) levelFiles
  = flat_map (spec_level_sink resolved) levelFiles.*1.
Proof.
  intros Hlf Hnd. apply (flat_map_levelFiles_part _ levelFiles); [done|].
  intros l lc. by apply elem_entry.
Qed.

Lemma createStreams_spec_sinks config :
  createStreams (mergedConfig config) = spec_sinks (mergedConfig config).
Proof.
  unfold createStreams, spec_sinks.
  remember (mergedConfig config) as resolved eqn:Hres.
  assert (Hlf : cfg_levelFiles resolved
                = Some (spread (dc_levelFiles defaultConfig) (cfg_levelFiles config)))
    by (by subst).
  rewrite Hlf, fold_pushLevelFile.
  rewrite (flat_map_levelFiles _ _ Hlf), merged_levelFiles_keys;
    [|rewrite merged_levelFiles_keys; apply all_levels_NoDup].
  destruct (truthy_bool _), (truthy_string _); cbn; done.
Qed.

Lemma spread_rotation_as_partial d r : spread_rotation d (Some (as_partial r)) = r.
Proof. by destruct r. Qed.

(** Every rotating sink of a constructed logger carries the rotation policy
    resolved from the input. *)
Lemma streams_rotation config d :
  d ∈ createStreams (mergedConfig config) →
  match pd_stream d with
  | pino_pretty _ => True
  | pino_roll o =>
      {| rot_interval := roll_frequency o; rot_size := roll_size o;
         rot_maxFiles := roll_maxFiles o |}
      = spread_rotation (dc_rotation defaultConfig) (cfg_rotation config)
  end.
Proof.
  rewrite createStreams_spec_sinks. unfold spec_sinks.
  rewrite !elem_of_app. intros [Hd|[Hd|Hd]].
  - destruct (truthy_bool _); [|by apply elem_of_nil in Hd].
    apply list_elem_of_singleton in Hd as ->. done.
  - destruct (truthy_string _); [|by apply elem_of_nil in Hd].
    apply list_elem_of_singleton in Hd as ->.
    unfold createRotationStream. cbn [pd_stream roll_frequency roll_size roll_maxFiles].
    change (cfg_rotation (mergedConfig config))
      with (Some (as_partial (spread_rotation (dc_rotation defaultConfig)
                                              (cfg_rotation config)))).
    rewrite spread_rotation_as_partial.
    by destruct (spread_rotation _ _).
  - apply list_elem_of_In, in_flat_map in Hd as (l & _ & Hd).
    unfold spec_level_sink in Hd.
    destruct (entry _ l) as [lc|]; [|done].
    destruct (lf_enabled lc); [|done].
    destruct Hd as [<-|[]].
    unfold createLevelStream. cbn [pd_stream roll_frequency roll_size roll_maxFiles].
    change (cfg_rotation (mergedConfig config))
      with (Some (as_partial (spread_rotation (dc_rotation defaultConfig)
                                              (cfg_rotation config)))).
    rewrite spread_rotation_as_partial.
    by destruct (spread_rotation _ _).
Qed.

(** C4.  For every input configuration, the sinks that [createStreams]
    builds from the merged configuration are exactly: the pretty console sink
    if [prettyPrint] is on, then the primary file sink if a destination is
    set, then one sink per enabled per-level file in the order fatal, error,
    warn, info, debug, trace; and writing the keys of [levelFiles] in another
    order gives the same sink list. *)
Theorem createStreams_fixed_order
    (config : LoggerConfig) (levelFiles levelFiles' : list (LogLevel * LevelFileConfig))
    (Hkeys : NoDup levelFiles.*1) (Horder : levelFiles ≡ₚ levelFiles') :
  createStreams (mergedConfig config) = spec_sinks (mergedConfig config)
  ∧ lg_streams (initLogger (Some config)) = spec_sinks (mergedConfig config)
  ∧ createStreams (mergedConfig (with_levelFiles config levelFiles))
    = createStreams (mergedConfig (with_levelFiles config levelFiles')).
Proof.
  split; [apply createStreams_spec_sinks|].
  split; [apply createStreams_spec_sinks|].
  assert (Hm : mergedConfig (with_levelFiles config levelFiles)
               = mergedConfig (with_levelFiles config levelFiles')).
  { unfold mergedConfig, with_levelFiles; cbn [cfg_levelFiles cfg_level
      cfg_prettyPrint cfg_destination cfg_rotation cfg_redaction
      cfg_baseContext cfg_serializers].
    rewrite (spread_permutation levelFiles levelFiles'); [done..| |done].
    intros l _. change (l ∈ all_levels). apply all_levels_complete. }
  by rewrite Hm.
Qed.

(** C6.  When the rotation map of the input holds only [size: "50M"], the
    resolved rotation policy is [{interval: "1d", size: "50M", maxFiles: 5}],
    and every rotating sink of the constructed logger is handed exactly these
    three values. *)
Theorem rotation_merged_per_subkey (config : LoggerConfig)
    (Hrotation : cfg_rotation config
                 = Some {| prot_interval := None; prot_size := Some "50M";
                           prot_maxFiles := None |}) :
  cfg_rotation (mergedConfig config)
  = Some (as_partial {| rot_interval := "1d"; rot_size := "50M"; rot_maxFiles := 5 |})
  ∧ Forall (fun d =>
              match pd_stream d with
              | pino_pretty _ => True
              | pino_roll o =>
                  roll_frequency o = "1d" ∧ roll_size o = "50M" ∧ roll_maxFiles o = 5
              end)
           (lg_streams (initLogger (Some config))).
Proof.
  split.
  - unfold mergedConfig; cbn [cfg_rotation]. by rewrite Hrotation.
  - apply Forall_forall. intros d Hd.
    apply (streams_rotation config) in Hd.
    destruct (pd_stream d) as [|o]; [done|].
    rewrite Hrotation in Hd. cbn in Hd. by injection Hd as -> -> ->.
Qed.


(** A resolved configuration with no pretty printing, no destination and no
    enabled per-level file has no sink. *)
Lemma createStreams_nothing_enabled (resolved : LoggerConfig) :
  truthy_bool (cfg_prettyPrint resolved) = false →
  truthy_string (cfg_destination resolved) = false →
  Forall (fun e => lf_enabled e.2 = false) (default [] (cfg_levelFiles resolved)) →
  createStreams resolved = [].
Proof.
  intros Hp Hd Hl. unfold createStreams. rewrite Hp, Hd.
  destruct (cfg_levelFiles resolved) as [lfs|]; [|done]. cbn in Hl.
  induction Hl as [|[l lc] lfs Hoff _ IH]; [done|]. cbn in *. by rewrite Hoff.
Qed.

(** Routing through a logger without sinks delivers nothing. *)
Lemma route_no_sinks lg explicitLevel obj msg :
  lg_streams lg = [] → route lg explicitLevel obj msg = [].
Proof. intros Hs. unfold route. by rewrite Hs. Qed.

(** C9.  There is an input configuration whose resolved form has no pretty
    printing, no primary destination and no enabled per-level file; its sink
    list is empty, [createLogger] still returns a logger for it, and routing
    any event through that logger, at any current level, delivers nothing. *)
Theorem empty_sink_list_is_legal :
  ∃ config : LoggerConfig,
    truthy_bool (cfg_prettyPrint (mergedConfig config)) = false
    ∧ truthy_string (cfg_destination (mergedConfig config)) = false
    ∧ Forall (fun e => lf_enabled e.2 = false)
             (default [] (cfg_levelFiles (mergedConfig config)))
    ∧ createStreams (mergedConfig config) = []
    ∧ (∀ w : World,
         heap (createLogger config w).2 !! (createLogger config w).1
         = Some (initLogger (Some config))
         ∧ lg_streams (initLogger (Some config)) = [])
    ∧ (∀ currentLevel explicitLevel obj msg,
         route (Logger_set_level (initLogger (Some config)) currentLevel)
               explicitLevel obj msg = []).
Proof.
  exists config_no_sinks.
  assert (Hp : truthy_bool (cfg_prettyPrint (mergedConfig config_no_sinks)) = false)
    by done.
  assert (Hd : truthy_string (cfg_destination (mergedConfig config_no_sinks)) = false)
    by done.
  assert (Hl : Forall (fun e => lf_enabled e.2 = false)
                 (default [] (cfg_levelFiles (mergedConfig config_no_sinks))))
    by (cbn; repeat constructor).
  assert (Hs : createStreams (mergedConfig config_no_sinks) = [])
    by (by apply createStreams_nothing_enabled).
  split_and!; [done|done|done|done| |].
  - intros w. split; [|done]. cbn. by rewrite lookup_app_r, Nat.sub_diag.
  - intros. by apply route_no_sinks.
Qed.

(** ** The singleton registry *)

Lemma getLogger_existing config w r :
  loggerInstance w = Some r → getLogger config w = (r, w).
Proof.
  intros Hr. unfold getLogger, bind, read_loggerInstance. by rewrite Hr.
Qed.

Lemma getLogger_fresh config w :
  loggerInstance w = None →
  getLogger config w
  = (length (heap w),
     {| heap := heap w ++ [initLogger config];
        loggerInstance := Some (length (heap w));
        calls := calls w |}).
Proof.
  intros Hr. unfold getLogger, bind, read_loggerInstance. by rewrite Hr.
Qed.

Lemma getLogger_ok config w :
  world_ok w → world_ok (getLogger config w).2.
Proof.
  intros Hok. destruct (loggerInstance w) as [r|] eqn:Hr.
  - by rewrite (getLogger_existing _ _ _ Hr).
  - rewrite (getLogger_fresh _ _ Hr). unfold world_ok; cbn.
    rewrite length_app; cbn. lia.
Qed.

Lemma getLogger_instance config w :
  loggerInstance (getLogger config w).2 = Some (getLogger config w).1.
Proof.
  destruct (loggerInstance w) as [r|] eqn:Hr.
  - by rewrite (getLogger_existing _ _ _ Hr).
  - by rewrite (getLogger_fresh _ _ Hr).
Qed.

Lemma getLogger_valid config w :
  world_ok w → ((getLogger config w).1 < length (heap (getLogger config w).2))%nat.
Proof.
  intros Hok. apply (getLogger_ok config) in Hok.
  unfold world_ok in Hok. by rewrite getLogger_instance in Hok.
Qed.

Lemma getLogger_frame config w r lg :
  heap w !! r = Some lg → heap (getLogger config w).2 !! r = Some lg.
Proof.
  intros Hlg. destruct (loggerInstance w) as [r'|] eqn:Hr.
  - by rewrite (getLogger_existing _ _ _ Hr).
  - rewrite (getLogger_fresh _ _ Hr); cbn. by apply lookup_app_l_Some.
Qed.

(** C5.  Two calls of [getLogger] with no [resetLogger] between them return
    the same reference, and the second call changes nothing whatever
    configuration it is given (when the first call built the singleton, it
    stays the logger of the first configuration); after [resetLogger] the
    next [getLogger] returns a different reference, to a logger freshly built
    from the configuration of that call, and the old logger is left as it
    was. *)
Theorem getLogger_idempotent_until_reset
    (w : World) (config1 config2 config3 : option LoggerConfig)
    (Hok : world_ok w) :
  let r1 := (getLogger config1 w).1 in
  let w1 := (getLogger config1 w).2 in
  let r2 := (getLogger config2 w1).1 in
  let w2 := (getLogger config2 w1).2 in
  let w3 := (resetLogger w2).2 in
  let r3 := (getLogger config3 w3).1 in
  let w4 := (getLogger config3 w3).2 in
  r2 = r1 ∧ w2 = w1
  ∧ (loggerInstance w = None → heap w2 !! r1 = Some (initLogger config1))
  ∧ r3 ≠ r1
  ∧ heap w4 !! r3 = Some (initLogger config3)
  ∧ heap w4 !! r1 = heap w1 !! r1
  ∧ loggerInstance w4 = Some r3.
Proof.
  intros r1 w1 r2 w2 w3 r3 w4.
  assert (H1 : loggerInstance w1 = Some r1) by apply getLogger_instance.
  assert (Hv : (r1 < length (heap w1))%nat) by by apply getLogger_valid.
  assert (H2 : getLogger config2 w1 = (r1, w1)) by by apply getLogger_existing.
  assert (Hr2 : r2 = r1) by (unfold r2; by rewrite H2).
  assert (Hw2 : w2 = w1) by (unfold w2; by rewrite H2).
  assert (H3 : loggerInstance w3 = None) by done.
  assert (Hh3 : heap w3 = heap w1) by (unfold w3; by rewrite Hw2).
  assert (H4 : getLogger config3 w3
               = (length (heap w1),
                  {| heap := heap w1 ++ [initLogger config3];
                     loggerInstance := Some (length (heap w1));
                     calls := calls w3 |})).
  { rewrite (getLogger_fresh _ _ H3). by rewrite Hh3. }
  unfold r3, w4. rewrite H4, Hw2. cbn [fst snd heap loggerInstance].
  split_and!; try done.
  - intros Hnone. unfold w1, r1. rewrite (getLogger_fresh _ _ Hnone). cbn.
    by rewrite lookup_app_r, Nat.sub_diag.
  - lia.
  - by rewrite lookup_app_r, Nat.sub_diag.
  - by rewrite lookup_app_l.
Qed.

(** ** The logging functions *)

Lemma log_unfold level message context w :
  log level message context w
  = call_level_method (getLogger None w).1 level
      (event_obj message context) (event_msg message) (getLogger None w).2.
Proof.
  unfold log, bind. destruct (getLogger None w) as [r w0]. by destruct message.
Qed.

Lemma createLogFunction_unfold level message context w :
  createLogFunction level message context w
  = call_level_method (getLogger None w).1 level
      (event_obj message context) (event_msg message) (getLogger None w).2.
Proof.
  unfold createLogFunction, bind. destruct (getLogger None w) as [r w0].
  by destruct message.
Qed.

Lemma getLogger_calls config w : calls (getLogger config w).2 = calls w.
Proof.
  destruct (loggerInstance w) as [r|] eqn:Hr.
  - by rewrite (getLogger_existing _ _ _ Hr).
  - by rewrite (getLogger_fresh _ _ Hr).
Qed.

Lemma spread_context_lookup (a b : LogContext) (k : string) :
  spread_context a b !! k
  = match b !! k with
    | Some v => Some v
    | None => a !! k
    end.
Proof.
  unfold spread_context. rewrite lookup_union.
  destruct (b !! k), (a !! k); done.
Qed.

(** C8.  [log] and every function made by [createLogFunction] call the
    logger method of their level once.  With a record-shaped message the
    object passed is the message record overlaid with the context record: a
    key of the context wins over the same key of the message, any other key
    of the message is kept.  With a string message the object passed is the
    context record (empty when omitted) and the string goes along as the
    message. *)
Theorem log_merges_message_and_context
    (w : World) (level : LogLevel) (context : option LogContext) :
  let logger := (getLogger None w).1 in
  (∀ message : LogContext,
     let obj := spread_context message (default ∅ context) in
     let call := {| call_logger := logger; call_level := level;
                    call_obj := obj; call_msg := None |} in
     calls (log level (Fields message) context w).2 = calls w ++ [call]
     ∧ calls (createLogFunction level (Fields message) context w).2 = calls w ++ [call]
     ∧ ∀ k : string,
         obj !! k = match default ∅ context !! k with
                    | Some v => Some v
                    | None => message !! k
                    end)
  ∧ (∀ message : string,
       let call := {| call_logger := logger; call_level := level;
                      call_obj := default ∅ context; call_msg := Some message |} in
       calls (log level (Text message) context w).2 = calls w ++ [call]
       ∧ calls (createLogFunction level (Text message) context w).2 = calls w ++ [call]).
Proof.
  intros logger. split.
  - intros message obj call. split_and!.
    + rewrite log_unfold. unfold call_level_method; cbn [snd calls].
      by rewrite getLogger_calls.
    + rewrite createLogFunction_unfold. unfold call_level_method; cbn [snd calls].
      by rewrite getLogger_calls.
    + intros k. apply spread_context_lookup.
  - intros message call. split.
    + rewrite log_unfold. unfold call_level_method; cbn [snd calls].
      by rewrite getLogger_calls.
    + rewrite createLogFunction_unfold. unfold call_level_method; cbn [snd calls].
      by rewrite getLogger_calls.
Qed.

Lemma setLevel_unfold level w :
  setLevel level w = assign_level (getLogger None w).1 level (getLogger None w).2.
Proof. unfold setLevel, bind. by destruct (getLogger None w). Qed.

Lemma child_unfold bindings w :
  child bindings w = call_child (getLogger None w).1 bindings (getLogger None w).2.
Proof. unfold child, bind. by destruct (getLogger None w). Qed.

Lemma call_child_frame s bindings w r lg :
  heap w !! r = Some lg → heap (call_child s bindings w).2 !! r = Some lg.
Proof.
  intros Hlg. unfold call_child. destruct (heap w !! s); [|done].
  cbn. by apply lookup_app_l_Some.
Qed.

Lemma setLevel_frame level w r lg :
  r ≠ (getLogger None w).1 → heap w !! r = Some lg →
  heap (setLevel level w).2 !! r = Some lg.
Proof.
  intros Hne Hlg. rewrite setLevel_unfold. cbn.
  rewrite list_lookup_alter_ne by done. by apply getLogger_frame.
Qed.

Lemma child_frame bindings w r lg :
  heap w !! r = Some lg → heap (child bindings w).2 !! r = Some lg.
Proof.
  intros Hlg. rewrite child_unfold. by apply call_child_frame, getLogger_frame.
Qed.

Lemma log_frame level message context w r lg :
  heap w !! r = Some lg →
  heap (log level message context w).2 !! r = Some lg
  ∧ heap (createLogFunction level message context w).2 !! r = Some lg.
Proof.
  intros Hlg. rewrite log_unfold, createLogFunction_unfold. cbn.
  split; by apply getLogger_frame.
Qed.

(** Every exported operation keeps the singleton inside the heap. *)
Lemma world_ok_preserved (w : World) :
  world_ok w →
  (∀ config, world_ok (getLogger config w).2)
  ∧ (∀ config, world_ok (createLogger config w).2)
  ∧ world_ok (resetLogger w).2
  ∧ (∀ level, world_ok (setLevel level w).2)
  ∧ (∀ bindings, world_ok (child bindings w).2)
  ∧ (∀ level message context,
       world_ok (log level message context w).2
       ∧ world_ok (createLogFunction level message context w).2).
Proof.
  intros Hok. split_and!.
  - intros config. by apply getLogger_ok.
  - intros config. unfold world_ok in *. cbn.
    destruct (loggerInstance w); [|done]. rewrite length_app. cbn. lia.
  - done.
  - intros level. rewrite setLevel_unfold.
    pose proof (getLogger_ok None w Hok) as Hok0.
    unfold world_ok, assign_level in *. cbn [snd heap loggerInstance].
    destruct (loggerInstance (getLogger None w).2); [|done].
    by rewrite length_alter.
  - intros bindings. rewrite child_unfold.
    pose proof (getLogger_ok None w Hok) as Hok0.
    unfold world_ok, call_child in *.
    destruct (heap (getLogger None w).2 !! (getLogger None w).1); [|done].
    unfold new_object. cbn [snd heap loggerInstance].
    destruct (loggerInstance (getLogger None w).2); [|done].
    rewrite length_app. cbn [length]. lia.
  - intros level message context.
    rewrite log_unfold, createLogFunction_unfold.
    pose proof (getLogger_ok None w Hok) as Hok0. split; exact Hok0.
Qed.

Lemma createLogger_built config w :
  heap (createLogger config w).2 !! (createLogger config w).1
  = Some (initLogger (Some config)).
Proof. cbn. by rewrite lookup_app_r, Nat.sub_diag. Qed.

(** The logger [createLogger] returns is never the registry's instance. *)
Lemma createLogger_not_singleton config w :
  world_ok w →
  (getLogger None (createLogger config w).2).1 ≠ (createLogger config w).1.
Proof.
  intros Hok. unfold world_ok in Hok.
  destruct (loggerInstance w) as [r0|] eqn:Hr0.
  - assert (H1 : loggerInstance (createLogger config w).2 = Some r0) by done.
    rewrite (getLogger_existing _ _ _ H1). cbn. lia.
  - assert (H1 : loggerInstance (createLogger config w).2 = None) by done.
    rewrite (getLogger_fresh _ _ H1). cbn. rewrite length_app. cbn. lia.
Qed.

(** C10.  [setLevel], [child], [log] and the functions made by
    [createLogFunction] (the six level-named functions) first take the
    registry's instance with [getLogger()] and then act on that reference:
    an existing singleton is used as it is, a missing one is first built from
    the empty configuration, stored, and then used.  A logger behind any
    other reference is left unchanged; the logger returned by [createLogger]
    is such a reference, so no ambient operation touches it, and the
    singleton built after a [createLogger] call is the all-default logger
    whatever configuration that call was given. *)
Theorem ambient_operations_use_singleton (w : World) (Hok : world_ok w) :
  let s := (getLogger None w).1 in
  let w0 := (getLogger None w).2 in
  loggerInstance w0 = Some s
  ∧ (∀ r, loggerInstance w = Some r → s = r ∧ w0 = w)
  ∧ (loggerInstance w = None →
       s = length (heap w)
       ∧ heap w0 = heap w ++ [initLogger (Some emptyConfig)]
       ∧ calls w0 = calls w)
  ∧ (∀ level, setLevel level w = assign_level s level w0)
  ∧ (∀ bindings, child bindings w = call_child s bindings w0)
  ∧ (∀ level message context,
       log level message context w
       = call_level_method s level (event_obj message context) (event_msg message) w0
       ∧ createLogFunction level message context w
         = call_level_method s level (event_obj message context) (event_msg message) w0)
  ∧ (fatal, error, warn, info, debug, trace)
    = (createLogFunction Fatal, createLogFunction Error, createLogFunction Warn,
       createLogFunction Info, createLogFunction Debug, createLogFunction Trace)
  ∧ (∀ r lg, r ≠ s → heap w !! r = Some lg →
       (∀ level, heap (setLevel level w).2 !! r = Some lg)
       ∧ (∀ bindings, heap (child bindings w).2 !! r = Some lg)
       ∧ (∀ level message context,
            heap (log level message context w).2 !! r = Some lg
            ∧ heap (createLogFunction level message context w).2 !! r = Some lg))
  ∧ (∀ config,
       let r := (createLogger config w).1 in
       let w1 := (createLogger config w).2 in
       let own := initLogger (Some config) in
       (getLogger None w1).1 ≠ r
       ∧ heap w1 !! r = Some own
       ∧ (∀ level, heap (setLevel level w1).2 !! r = Some own)
       ∧ (∀ bindings, heap (child bindings w1).2 !! r = Some own)
       ∧ (∀ level message context,
            heap (log level message context w1).2 !! r = Some own
            ∧ heap (createLogFunction level message context w1).2 !! r = Some own)
       ∧ (loggerInstance w = None →
            heap (getLogger None w1).2 !! (getLogger None w1).1
            = Some (initLogger (Some emptyConfig)))).
Proof.
  intros s w0. split_and!.
  - apply getLogger_instance.
  - intros r Hr. unfold s, w0. by rewrite (getLogger_existing _ _ _ Hr).
  - intros Hnone. unfold s, w0. by rewrite (getLogger_fresh _ _ Hnone).
  - intros level. apply setLevel_unfold.
  - intros bindings. apply child_unfold.
  - intros level message context.
    by rewrite log_unfold, createLogFunction_unfold.
  - done.
  - intros r lg Hne Hlg. split_and!.
    + intros level. by apply setLevel_frame.
    + intros bindings. by apply child_frame.
    + intros level message context. by apply log_frame.
  - intros config r w1 own.
    assert (Hr : heap w1 !! r = Some own) by apply createLogger_built.
    assert (Hne : (getLogger None w1).1 ≠ r) by by apply createLogger_not_singleton.
    split_and!; [done|done| | | |].
    + intros level. by apply setLevel_frame.
    + intros bindings. by apply child_frame.
    + intros level message context. by apply log_frame.
    + intros Hnone.
      assert (H1 : loggerInstance w1 = None) by done.
      rewrite (getLogger_fresh _ _ H1). cbn [fst snd heap].
      by rewrite lookup_app_r, Nat.sub_diag.
Qed.

(** ** Routing *)

Lemma levels_values_inj l1 l2 : levels_values l1 = levels_values l2 → l1 = l2.
Proof. by destruct l1, l2. Qed.

Lemma reached_iff lg explicitLevel obj msg d :
  d ∈ reached lg explicitLevel obj msg
  ↔ d ∈ lg_streams lg
    ∧ admits lg explicitLevel (merged_record lg explicitLevel obj msg) d = true.
Proof.
  unfold reached, route. rewrite map_map. cbn [fst]. rewrite map_id.
  rewrite list_elem_of_In, filter_In, <- list_elem_of_In. done.
Qed.

Lemma admits_threshold lg explicitLevel rec d :
  pd_filter d = None →
  admits lg explicitLevel rec d = at_least_as_severe explicitLevel (lg_level lg).
Proof. intros Hf. unfold admits. by rewrite Hf. Qed.

Lemma admits_exact lg explicitLevel obj msg d l :
  pd_filter d = Some (fun obj => Z.eqb (rec_level obj) (levels_values l)) →
  admits lg explicitLevel (merged_record lg explicitLevel obj msg) d = true
  ↔ explicitLevel = l.
Proof.
  intros Hf. unfold admits. rewrite Hf. cbn. rewrite Z.eqb_eq.
  split; [apply levels_values_inj|by intros ->].
Qed.

Lemma mergedConfig_level config :
  default (dc_level defaultConfig) (cfg_level (mergedConfig config))
  = default Info (cfg_level config).
Proof. unfold mergedConfig; cbn. by destruct (cfg_level config). Qed.

(** The sinks of a constructed logger are of two kinds: those without a
    filter (pretty and primary), which carry the level the logger was
    constructed with, and those whose filter asks for exactly the level of
    the sink. *)
Lemma streams_kinds config d :
  d ∈ createStreams (mergedConfig config) →
  (pd_filter d = None ∧ pd_level d = default Info (cfg_level config))
  ∨ pd_filter d = Some (fun obj => Z.eqb (rec_level obj) (levels_values (pd_level d))).
Proof.
  rewrite createStreams_spec_sinks. unfold spec_sinks.
  rewrite mergedConfig_level.
  rewrite !elem_of_app. intros [Hd|[Hd|Hd]].
  - destruct (truthy_bool _); [|by apply elem_of_nil in Hd].
    apply list_elem_of_singleton in Hd as ->. by left.
  - destruct (truthy_string _); [|by apply elem_of_nil in Hd].
    apply list_elem_of_singleton in Hd as ->. by left.
  - apply list_elem_of_In, in_flat_map in Hd as (l & _ & Hd).
    unfold spec_level_sink in Hd.
    destruct (entry _ l) as [lc|]; [|done].
    destruct (lf_enabled lc); [|done].
    destruct Hd as [<-|[]]. by right.
Qed.

Lemma level_sink_built config l levelConfig :
  entry (spread (dc_levelFiles defaultConfig) (cfg_levelFiles config)) l
  = Some levelConfig →
  lf_enabled levelConfig = true →
  createLevelStream l
    (default
       (join [dirname (default (dc_destination defaultConfig)
                               (cfg_destination (mergedConfig config)));
              level_name l +:+ ".log"])
       (lf_destination levelConfig))
    (cfg_rotation (mergedConfig config))
  ∈ createStreams (mergedConfig config).
Proof.
  intros Hentry Hen.
  rewrite createStreams_spec_sinks. unfold spec_sinks.
  rewrite !elem_of_app. right; right.
  apply list_elem_of_In, in_flat_map. exists l. split.
  - apply list_elem_of_In, all_levels_complete.
  - unfold spec_level_sink.
    change (cfg_levelFiles (mergedConfig config))
      with (Some (spread (dc_levelFiles defaultConfig) (cfg_levelFiles config))).
    cbn [from_option id]. rewrite Hentry, Hen. by left.
Qed.

Lemma primary_sink_built config :
  truthy_string (cfg_destination (mergedConfig config)) = true →
  createRotationStream (mergedConfig config) (default Info (cfg_level config))
  ∈ createStreams (mergedConfig config).
Proof.
  intros Hd. rewrite createStreams_spec_sinks. unfold spec_sinks.
  rewrite !elem_of_app. right; left. rewrite Hd.
  apply list_elem_of_singleton. by rewrite mergedConfig_level.
Qed.

Lemma initLogger_level config :
  lg_level (initLogger (Some config)) = default Info (cfg_level config).
Proof. unfold initLogger, pino; cbn. by destruct (cfg_level config). Qed.

(** C2.  In the logger built from any input configuration whose resolved
    form has a primary destination and an enabled per-level file for level
    [l]: an event reaches the level-[l] sink exactly when its level is [l],
    and reaches the primary sink exactly when its level is at least as severe
    as the configured minimum level. *)
Theorem per_level_exclusivity
    (config : LoggerConfig) (l : LogLevel) (levelConfig : LevelFileConfig)
    (Hentry : entry (spread (dc_levelFiles defaultConfig) (cfg_levelFiles config)) l
              = Some levelConfig)
    (Henabled : lf_enabled levelConfig = true)
    (Hdestination : truthy_string (cfg_destination (mergedConfig config)) = true) :
  let resolved := mergedConfig config in
  let lg := initLogger (Some config) in
  let minimum := default Info (cfg_level config) in
  let primary := createRotationStream resolved minimum in
  let levelSink :=
    createLevelStream l
      (default
         (join [dirname (default (dc_destination defaultConfig)
                                 (cfg_destination resolved));
                level_name l +:+ ".log"])
         (lf_destination levelConfig))
      (cfg_rotation resolved) in
  primary ∈ lg_streams lg
  ∧ levelSink ∈ lg_streams lg
  ∧ (lg_level lg = minimum ∧ pd_level primary = minimum ∧ pd_filter primary = None)
  ∧ (pd_level levelSink = l ∧ is_Some (pd_filter levelSink))
  ∧ ∀ (explicitLevel : LogLevel) (obj : LogContext) (msg : option string),
      (levelSink ∈ reached lg explicitLevel obj msg ↔ explicitLevel = l)
      ∧ (primary ∈ reached lg explicitLevel obj msg
         ↔ at_least_as_severe explicitLevel minimum = true).
Proof.
  intros resolved lg minimum primary levelSink.
  assert (Hp : primary ∈ lg_streams lg) by by apply primary_sink_built.
  assert (Hl : levelSink ∈ lg_streams lg) by by apply level_sink_built.
  split_and!; [done|done|apply initLogger_level|done|done|done|done|].
  intros explicitLevel obj msg. rewrite !reached_iff. split.
  - rewrite (admits_exact lg explicitLevel obj msg levelSink l) by done. tauto.
  - rewrite admits_threshold by done.
    unfold lg at 2. rewrite initLogger_level. tauto.
Qed.

(** C3.  [setLevel newLevel] stores [newLevel] in the singleton logger and
    nothing else: the sink list is the very list the logger was constructed
    with, each sink still carrying the level and the filter it was built
    with.  From then on a sink without a filter (pretty, primary) is reached
    exactly by the events at least as severe as [newLevel], while a sink with
    an exact filter is reached exactly by the events of its own level, as
    before the call. *)
Theorem setLevel_moves_threshold_only
    (w : World) (newLevel : LogLevel) (config : LoggerConfig) (lg : Logger)
    (Hlg : heap (getLogger None w).2 !! (getLogger None w).1 = Some lg)
    (Hbuilt : lg_streams lg = createStreams (mergedConfig config)) :
  let s := (getLogger None w).1 in
  let w' := (setLevel newLevel w).2 in
  let lg' := Logger_set_level lg newLevel in
  loggerInstance w' = Some s
  ∧ heap w' !! s = Some lg'
  ∧ calls w' = calls w
  ∧ lg_level lg' = newLevel
  ∧ lg_streams lg' = createStreams (mergedConfig config)
  ∧ ∀ d, d ∈ lg_streams lg' →
      (pd_filter d = None
       ∧ pd_level d = default Info (cfg_level config)
       ∧ ∀ explicitLevel obj msg,
           d ∈ reached lg' explicitLevel obj msg
           ↔ at_least_as_severe explicitLevel newLevel = true)
      ∨ (is_Some (pd_filter d)
         ∧ ∀ explicitLevel obj msg,
             (d ∈ reached lg' explicitLevel obj msg ↔ explicitLevel = pd_level d)
             ∧ (d ∈ reached lg explicitLevel obj msg ↔ explicitLevel = pd_level d)).
Proof.
  intros s w' lg'. unfold w'. rewrite setLevel_unfold.
  unfold assign_level; cbn [snd heap loggerInstance calls].
  split_and!.
  - apply getLogger_instance.
  - rewrite list_lookup_alter_eq. by rewrite Hlg.
  - apply getLogger_calls.
  - done.
  - done.
  - intros d Hd. change (lg_streams lg') with (lg_streams lg) in Hd.
    assert (Hd' := Hd). rewrite Hbuilt in Hd'.
    destruct (streams_kinds _ _ Hd') as [[Hf Hlevel]|Hf]; [left|right].
    + split_and!; [done|done|]. intros explicitLevel obj msg.
      rewrite reached_iff, admits_threshold by done.
      change (lg_streams lg') with (lg_streams lg). cbn [lg' Logger_set_level lg_level].
      tauto.
    + split; [by rewrite Hf|]. intros explicitLevel obj msg.
      rewrite !reached_iff.
      rewrite (admits_exact lg' explicitLevel obj msg d (pd_level d)) by done.
      rewrite (admits_exact lg explicitLevel obj msg d (pd_level d)) by done.
      change (lg_streams lg') with (lg_streams lg). tauto.
Qed.

(** ** Further properties of the merger *)

Lemma fold_assign_head {K V : Type} `{EqDecision K} (m o : list (K * V)) k v :
  k ∉ m.*1 →
  fold_left (fun acc kv => assign acc kv.1 kv.2) m ((k, v) :: o)
  = (k, v) :: fold_left (fun acc kv => assign acc kv.1 kv.2) m o.
Proof.
  revert o. induction m as [|[k1 v1] m IH]; intros o Hk; cbn; [done|].
  apply not_elem_of_cons in Hk as [Hne Hk].
  rewrite decide_False by done. by apply IH.
Qed.

(** Spreading an object over another with the same keys in the same order
    gives the first object back. *)
Lemma spread_same_keys {K V : Type} `{EqDecision K} (m o : list (K * V)) :
  m.*1 = o.*1 → NoDup m.*1 → spread o (Some m) = m.
Proof.
  unfold spread; cbn. revert o.
  induction m as [|[k v] m IH]; intros [|[k0 v0] o] Heq Hnd; cbn in *; try done.
  injection Heq as -> Heq. apply NoDup_cons in Hnd as [Hk Hnd].
  rewrite decide_True by done.
  rewrite fold_assign_head by done. f_equal. by apply IH.
Qed.

Lemma mergedConfig_again config :
  mergedConfig (mergedConfig config) = mergedConfig config.
Proof.
  unfold mergedConfig.
  cbn [cfg_level cfg_prettyPrint cfg_destination cfg_rotation cfg_levelFiles
       cfg_redaction cfg_baseContext cfg_serializers].
  rewrite spread_rotation_as_partial.
  rewrite (spread_same_keys (spread (dc_levelFiles defaultConfig) (cfg_levelFiles config)));
    [|by rewrite merged_levelFiles_keys
     |rewrite merged_levelFiles_keys; apply all_levels_NoDup].
  by destruct (cfg_level config), (cfg_prettyPrint config), (cfg_destination config),
       (cfg_redaction config), (cfg_baseContext config), (cfg_serializers config).
Qed.

(** X1.  Merging is idempotent: a configuration that is already resolved is
    left unchanged by a second merge, so handing a resolved configuration
    back to [initLogger] builds the same logger, and the merge that
    [createRotationStream] repeats on the configuration it is given changes
    nothing. *)
Theorem merge_is_idempotent (config : LoggerConfig) (level : LogLevel) :
  mergedConfig (mergedConfig config) = mergedConfig config
  ∧ initLogger (Some (mergedConfig config)) = initLogger (Some config)
  ∧ createRotationStream (mergedConfig config) level = createRotationStream config level.
Proof.
  split_and!.
  - apply mergedConfig_again.
  - unfold initLogger. cbn [from_option id]. by rewrite mergedConfig_again.
  - unfold createRotationStream.
    change (cfg_rotation (mergedConfig config))
      with (Some (as_partial (spread_rotation (dc_rotation defaultConfig)
                                              (cfg_rotation config)))).
    rewrite spread_rotation_as_partial.
    change (cfg_destination (mergedConfig config))
      with (spread_key (Some (dc_destination defaultConfig)) (cfg_destination config)).
    by destruct (cfg_destination config).
Qed.

(** ** Further properties of the sink resolver *)

Lemma spec_level_sink_cases resolved l :
  spec_level_sink resolved l = []
  ∨ ∃ d o, spec_level_sink resolved l = [d]
           ∧ pd_level d = l ∧ is_Some (pd_filter d)
           ∧ pd_stream d = pino_roll o ∧ roll_dirname o = None.
Proof.
  unfold spec_level_sink.
  destruct (entry _ l) as [lc|]; [|by left].
  destruct (lf_enabled lc); [|by left].
  right. eexists _, _. split; [done|]. by split_and!.
Qed.

Lemma level_sinks_length resolved ls :
  (length (flat_map (spec_level_sink resolved) ls) ≤ length ls)%nat.
Proof.
  induction ls as [|l ls IH]; cbn; [done|]. rewrite length_app.
  destruct (spec_level_sink_cases resolved l) as [->|(d & o & -> & _)]; cbn; lia.
Qed.

Lemma level_sinks_all_exact resolved ls :
  List.filter (fun d => negb (bool_decide (is_Some (pd_filter d))))
    (flat_map (spec_level_sink resolved) ls) = [].
Proof.
  induction ls as [|l ls IH]; cbn; [done|]. rewrite List.filter_app, IH, app_nil_r.
  destruct (spec_level_sink_cases resolved l) as [->|(d & o & -> & _ & Hf & _)];
    cbn; [done|]. by rewrite bool_decide_true.
Qed.

Lemma level_sinks_one_per_level resolved ls l :
  NoDup ls →
  (length (List.filter (fun d => bool_decide (is_Some (pd_filter d) ∧ pd_level d = l))
             (flat_map (spec_level_sink resolved) ls))
   ≤ if bool_decide (l ∈ ls) then 1 else 0)%nat.
Proof.
  induction ls as [|l0 ls IH]; intros Hnd; cbn; [done|].
  apply NoDup_cons in Hnd as [Hl0 Hnd]. specialize (IH Hnd).
  rewrite List.filter_app, length_app.
  assert (Hhead :
    (length (List.filter
               (fun d => bool_decide (is_Some (pd_filter d) ∧ pd_level d = l))
               (spec_level_sink resolved l0))
     ≤ if bool_decide (l = l0) then 1 else 0)%nat).
  { destruct (spec_level_sink_cases resolved l0) as [->|(d & o & -> & Hl & _)];
      cbn; [lia|].
    destruct (decide (l = l0)) as [->|Hne].
    - rewrite (bool_decide_true (l0 = l0)) by done.
      destruct (bool_decide (is_Some (pd_filter d) ∧ pd_level d = l0)); cbn; lia.
    - rewrite (bool_decide_false (l = l0)) by done.
      rewrite bool_decide_false; [cbn; lia|]. intros [_ Hl']. congruence. }
  destruct (decide (l = l0)) as [->|Hne].
  - rewrite (bool_decide_true (l0 = l0)) in Hhead by done.
    rewrite (bool_decide_false (l0 ∈ ls)) in IH by done.
    rewrite bool_decide_true by left. lia.
  - rewrite (bool_decide_false (l = l0)) in Hhead by done.
    destruct (decide (l ∈ ls)) as [Hin|Hnin].
    + rewrite bool_decide_true in IH by done.
      rewrite bool_decide_true by (by right). lia.
    + rewrite bool_decide_false in IH by done.
      case_bool_decide; lia.
Qed.


(** X2.  A constructed logger has at most eight sinks: at most two without a
    filter (pretty and primary) and, for each of the six levels, at most one
    per-level sink. *)
Theorem sink_count_bounds (config : LoggerConfig) :
  let streams := lg_streams (initLogger (Some config)) in
  (length streams ≤ 8)%nat
  ∧ (length (List.filter (fun d => negb (bool_decide (is_Some (pd_filter d)))) streams)
     ≤ 2)%nat
  ∧ ∀ l : LogLevel,
      (length (List.filter
                 (fun d => bool_decide (is_Some (pd_filter d) ∧ pd_level d = l))
                 streams)
       ≤ 1)%nat.
Proof.
  cbn zeta. change (lg_streams (initLogger (Some config)))
    with (createStreams (mergedConfig config)).
  rewrite createStreams_spec_sinks. unfold spec_sinks.
  split_and!.
  - rewrite !length_app.
    pose proof (level_sinks_length (mergedConfig config) all_levels) as Hl.
    change (length all_levels) with 6%nat in Hl.
    destruct (truthy_bool _), (truthy_string _); cbn [length]; lia.
  - rewrite !List.filter_app, level_sinks_all_exact, app_nil_r, length_app.
    destruct (truthy_bool _), (truthy_string _); cbn; lia.
  - intros l. rewrite !List.filter_app, !length_app.
    pose proof (level_sinks_one_per_level (mergedConfig config) all_levels l
                  all_levels_NoDup) as Hl.
    rewrite bool_decide_true in Hl by apply all_levels_complete.
    cbn iota in Hl.
    assert (Hp : ∀ lvl,
      List.filter (fun d => bool_decide (is_Some (pd_filter d) ∧ pd_level d = l))
        [createPrettyStream lvl] = []).
    { done. }
    assert (Hr : ∀ c lvl,
      List.filter (fun d => bool_decide (is_Some (pd_filter d) ∧ pd_level d = l))
        [createRotationStream c lvl] = []).
    { done. }
    destruct (truthy_bool _), (truthy_string _); rewrite ?Hp, ?Hr;
      cbn [length Nat.add]; exact Hl.
Qed.

Lemma entry_elem {K V : Type} `{EqDecision K} (o : list (K * V)) k v :
  entry o k = Some v → (k, v) ∈ o.
Proof.
  induction o as [|[k' v'] o IH]; cbn; [done|].
  destruct (decide (k' = k)) as [->|Hne].
  - intros [= ->]. left.
  - intros Hv. right. by apply IH.
Qed.






(** ** Further properties of the registry and of the logging functions *)

Lemma list_alter_twice {A : Type} (f g : A → A) (l : list A) (i : nat) :
  alter f i (alter g i l) = alter (f ∘ g) i l.
Proof.
  apply list_eq. intros j. destruct (decide (i = j)) as [->|Hne].
  - rewrite !list_lookup_alter_eq. by destruct (l !! j).
  - by rewrite !list_lookup_alter_ne.
Qed.

(** X8.  Of two [setLevel] calls in a row the last one wins: the world they
    leave is the world the second call alone would leave, and the singleton
    then has the second level. *)
Theorem setLevel_last_wins (w : World) (level1 level2 : LogLevel) :
  setLevel level2 (setLevel level1 w).2 = setLevel level2 w
  ∧ lg_level <$> heap (setLevel level2 (setLevel level1 w).2).2 !! (getLogger None w).1
    = (fun _ => level2) <$> heap (getLogger None w).2 !! (getLogger None w).1.
Proof.
  assert (Hsame : setLevel level2 (setLevel level1 w).2 = setLevel level2 w).
  { rewrite (setLevel_unfold level1 w), (setLevel_unfold level2 w).
    pose proof (getLogger_instance None w) as Hs.
    remember (getLogger None w) as p eqn:Hp. destruct p as [s w0]. cbn [fst snd] in *.
    rewrite setLevel_unfold.
    assert (H1 : loggerInstance (assign_level s level1 w0).2 = Some s) by done.
    rewrite (getLogger_existing _ _ _ H1). cbn [fst snd].
    unfold assign_level. cbn [fst snd heap loggerInstance calls].
    rewrite list_alter_twice. reflexivity. }
  split; [done|].
  rewrite Hsame, setLevel_unfold. unfold assign_level. cbn [snd heap].
  rewrite list_lookup_alter_eq, <- option_fmap_compose.
  by destruct (heap _ !! _).
Qed.

(** X9.  Once the registry holds a singleton, [getLogger] returns it whatever
    configuration it is given, and no exported operation replaces or drops it
    except [resetLogger], which clears the registry. *)
Theorem singleton_kept_until_reset (w : World) (s : nat)
    (Hs : loggerInstance w = Some s) :
  (∀ config, (getLogger config w).1 = s
             ∧ loggerInstance (getLogger config w).2 = Some s)
  ∧ (∀ config, loggerInstance (createLogger config w).2 = Some s)
  ∧ (∀ level, loggerInstance (setLevel level w).2 = Some s)
  ∧ (∀ bindings, loggerInstance (child bindings w).2 = Some s)
  ∧ (∀ level message context,
       loggerInstance (log level message context w).2 = Some s
       ∧ loggerInstance (createLogFunction level message context w).2 = Some s)
  ∧ loggerInstance (resetLogger w).2 = None.
Proof.
  assert (Hg : ∀ config, getLogger config w = (s, w))
    by (intros config; by apply getLogger_existing).
  split_and!.
  - intros config. by rewrite Hg.
  - done.
  - intros level. by rewrite setLevel_unfold, Hg.
  - intros bindings. rewrite child_unfold, Hg. cbn [fst snd].
    unfold call_child. by destruct (heap w !! s).
  - intros level message context.
    by rewrite log_unfold, createLogFunction_unfold, Hg.
  - done.
Qed.

(** X10.  No exported operation removes a logger or rebuilds its sinks: a
    logger that exists stays behind its reference, unchanged, through
    [getLogger], [createLogger], [resetLogger], [child], [log] and the
    level-named functions; [setLevel] changes the level of the singleton and
    nothing else of it, and leaves every other logger as it was. *)
Theorem loggers_are_never_rebuilt (w : World) (r : nat) (lg : Logger)
    (Hlg : heap w !! r = Some lg) :
  (∀ config, heap (getLogger config w).2 !! r = Some lg)
  ∧ (∀ config, heap (createLogger config w).2 !! r = Some lg)
  ∧ heap (resetLogger w).2 !! r = Some lg
  ∧ (∀ bindings, heap (child bindings w).2 !! r = Some lg)
  ∧ (∀ level message context,
       heap (log level message context w).2 !! r = Some lg
       ∧ heap (createLogFunction level message context w).2 !! r = Some lg)
  ∧ (∀ level, ∃ lg',
       heap (setLevel level w).2 !! r = Some lg'
       ∧ lg_streams lg' = lg_streams lg
       ∧ lg_options lg' = lg_options lg
       ∧ lg_bindings lg' = lg_bindings lg
       ∧ (r ≠ (getLogger None w).1 → lg' = lg)
       ∧ (r = (getLogger None w).1 → lg_level lg' = level)).
Proof.
  split_and!.
  - intros config. by apply getLogger_frame.
  - intros config. cbn. by apply lookup_app_l_Some.
  - done.
  - intros bindings. by apply child_frame.
  - intros level message context. by apply log_frame.
  - intros level.
    pose proof (getLogger_frame None w r lg Hlg) as Hlg0.
    destruct (decide (r = (getLogger None w).1)) as [Heq|Hne].
    + exists (Logger_set_level lg level). split_and!; try done.
      rewrite setLevel_unfold. unfold assign_level. cbn [snd heap].
      rewrite <- Heq, list_lookup_alter_eq, Hlg0. done.
    + exists lg. split_and!; try done. by apply setLevel_frame.
Qed.

Lemma log_world level message context w :
  (log level message context w).2
  = {| heap := heap (getLogger None w).2;
       loggerInstance := Some (getLogger None w).1;
       calls := calls w ++ [call_of (getLogger None w).1 (level, message, context)] |}.
Proof.
  rewrite log_unfold. unfold call_level_method. cbn [snd].
  by rewrite getLogger_instance, getLogger_calls.
Qed.

Lemma log_all_cons level message context events w :
  log_all ((level, message, context) :: events) w
  = log_all events (log level message context w).2.
Proof.
  cbn [log_all]. unfold bind at 1. by destruct (log level message context w).
Qed.

(** X11.  A run of [log] calls reaches one logger: every call of the run,
    in the order made, goes to the registry's singleton, which is built (at
    most once, by the first call) when the registry is empty, and which the
    registry holds afterwards. *)
Theorem log_all_uses_one_singleton
    (w : World) (events : list (LogLevel * LogMessage * option LogContext)) :
  let s := (getLogger None w).1 in
  calls (log_all events w).2 = calls w ++ map (call_of s) events
  ∧ heap (log_all events w).2
    = match events with
      | [] => heap w
      | _ :: _ => heap (getLogger None w).2
      end
  ∧ loggerInstance (log_all events w).2
    = match events with
      | [] => loggerInstance w
      | _ :: _ => Some s
      end.
Proof.
  cbn zeta. revert w. induction events as [|[[level message] context] events IH];
    intros w.
  - cbn. by rewrite app_nil_r.
  - rewrite log_all_cons.
    destruct (IH (log level message context w).2) as (Hc & Hh & Hi).
    assert (H1 : loggerInstance (log level message context w).2
                 = Some (getLogger None w).1) by (by rewrite log_world).
    rewrite (getLogger_existing _ _ _ H1) in Hc, Hh. cbn [fst snd] in Hc, Hh.
    rewrite Hc, Hh, Hi. rewrite log_world. cbn [calls heap loggerInstance map].
    split_and!.
    + by rewrite <- app_assoc.
    + by destruct events.
    + destruct events; [done|].
      rewrite (getLogger_existing None _ (getLogger None w).1); done.
Qed.

(** X12.  Loggers made by [createLogger] are independent objects: two calls,
    even with the same configuration, return different references, each to
    the logger of its own configuration; the registry, the calls made so far
    and every logger that existed are left as they were. *)
Theorem createLogger_instances_are_independent
    (w : World) (config1 config2 : LoggerConfig) :
  let r1 := (createLogger config1 w).1 in
  let w1 := (createLogger config1 w).2 in
  let r2 := (createLogger config2 w1).1 in
  let w2 := (createLogger config2 w1).2 in
  r1 ≠ r2
  ∧ heap w2 !! r1 = Some (initLogger (Some config1))
  ∧ heap w2 !! r2 = Some (initLogger (Some config2))
  ∧ loggerInstance w2 = loggerInstance w
  ∧ calls w2 = calls w
  ∧ length (heap w2) = S (S (length (heap w)))
  ∧ ∀ r lg, heap w !! r = Some lg → heap w2 !! r = Some lg.
Proof.
  cbn zeta. cbn [createLogger new_object fst snd heap loggerInstance calls].
  rewrite !length_app. cbn [length].
  split_and!; try done.
  - lia.
  - rewrite lookup_app_l by (rewrite length_app; cbn; lia).
    by rewrite lookup_app_r, Nat.sub_diag.
  - rewrite lookup_app_r by (rewrite length_app; cbn; lia).
    rewrite length_app. cbn [length].
    by replace (length (heap w) + 1 - (length (heap w) + 1))%nat with 0%nat by lia.
  - lia.
  - intros r lg Hlg. by do 2 apply lookup_app_l_Some.
Qed.

(** X13.  On an empty registry the first ambient call decides the
    singleton: after a [log], a level-named function, a [setLevel] or a
    [child], the registry holds the logger built from the empty
    configuration, and a later [getLogger(config)] returns that logger and
    ignores its configuration. *)
Theorem first_ambient_call_fixes_defaults
    (w : World) (config : LoggerConfig) (Hempty : loggerInstance w = None) :
  let s := length (heap w) in
  (∀ level message context,
     let w1 := (log level message context w).2 in
     let w1' := (createLogFunction level message context w).2 in
     getLogger (Some config) w1 = (s, w1)
     ∧ heap w1 !! s = Some (initLogger None)
     ∧ w1' = w1)
  ∧ (∀ level,
       let w1 := (setLevel level w).2 in
       getLogger (Some config) w1 = (s, w1)
       ∧ heap w1 !! s = Some (Logger_set_level (initLogger None) level))
  ∧ (∀ bindings,
       let w1 := (child bindings w).2 in
       getLogger (Some config) w1 = (s, w1)
       ∧ heap w1 !! s = Some (initLogger None)).
Proof.
  intros s.
  pose proof (getLogger_fresh None w Hempty) as Hg.
  assert (Hs : (heap w ++ [initLogger None]) !! s = Some (initLogger None))
    by (unfold s; by rewrite lookup_app_r, Nat.sub_diag).
  split_and!.
  - intros level message context w1 w1'. subst w1 w1'.
    rewrite createLogFunction_unfold, log_unfold, Hg. cbn [fst snd].
    split_and!; try done.
  - intros level w1. subst w1. rewrite setLevel_unfold, Hg. cbn [fst snd].
    split; [done|]. unfold assign_level. cbn [snd heap].
    fold s. by rewrite list_lookup_alter_eq, Hs.
  - intros bindings w1. subst w1. rewrite child_unfold, Hg. cbn [fst snd].
    unfold call_child. cbn [heap]. fold s. rewrite Hs.
    split; [done|]. cbn [new_object snd heap].
    apply lookup_app_l_Some. exact Hs.
Qed.

(** ** Inputs that set a key to [undefined] *)

Lemma forEach_pushLevelFileU config entries streams :
  forEach (pushLevelFileU config) (prod_map id Some <$> entries) streams
  = Normal (streams ++ flat_map (levelStreamU config) entries).
Proof.
  revert streams. induction entries as [|[l lc] entries IH]; intros streams; cbn.
  - by rewrite app_nil_r.
  - unfold levelStreamU at 1. cbn [fst snd].
    destruct (lf_enabled lc); rewrite IH; [|done].
    by rewrite <- app_assoc.
Qed.

Lemma forEach_pushLevelFileU_undefined config levelFiles streams l :
  (l, None) ∈ levelFiles →
  forEach (pushLevelFileU config) levelFiles streams = Throw (TypeError "enabled").
Proof.
  revert streams. induction levelFiles as [|[l0 [lc|]] levelFiles IH];
    intros streams Hin; cbn.
  - by apply elem_of_nil in Hin.
  - apply elem_of_cons in Hin as [Heq|Hin]; [done|].
    destruct (lf_enabled lc); by apply IH.
  - done.
Qed.

Lemma defined_entries {K V : Type} (l : list (K * option V)) :
  Forall (fun e => is_Some e.2) l → ∃ entries, l = prod_map id Some <$> entries.
Proof.
  induction l as [|[k o] l IH]; intros Hl.
  - by exists [].
  - apply Forall_cons in Hl as [[v Hv] Hl]. cbn in Hv. subst o.
    destruct (IH Hl) as [entries ->]. by exists ((k, v) :: entries).
Qed.

Lemma assign_defined {K V : Type} `{EqDecision K} (o : list (K * option V)) k v :
  Forall (fun e => is_Some e.2) o → is_Some v →
  Forall (fun e => is_Some e.2) (assign o k v).
Proof.
  intros Ho Hv. induction Ho as [|[k' v'] o Hv' Ho IH]; cbn.
  - by repeat constructor.
  - destruct (decide (k' = k)); constructor; done.
Qed.

Lemma spread_defined {K V : Type} `{EqDecision K} (o ext : list (K * option V)) :
  Forall (fun e => is_Some e.2) o → Forall (fun e => is_Some e.2) ext →
  Forall (fun e => is_Some e.2) (spread o (Some ext)).
Proof.
  unfold spread; cbn. intros Ho Hext. revert o Ho.
  induction Hext as [|[k v] ext Hv _ IH]; intros o Ho; cbn; [done|].
  apply IH. by apply assign_defined.
Qed.

(** The merged [levelFiles] of an input whose entries are all objects. *)
Lemma merged_levelFilesU_defined config :
  Forall (fun e => is_Some e.2) (levelFiles_entries config) →
  ∃ entries,
    ucfg_levelFiles (mergedConfigU config) = Given (prod_map id Some <$> entries).
Proof.
  intros Hentries. unfold mergedConfigU; cbn [ucfg_levelFiles].
  destruct (defined_entries
              (spread (prod_map id Some <$> dc_levelFiles defaultConfig)
                      (read (ucfg_levelFiles config)))) as [entries ->];
    [|by exists entries].
  unfold levelFiles_entries in Hentries.
  destruct (read (ucfg_levelFiles config)) as [ext|]; cbn in Hentries.
  - apply spread_defined; [|done]. cbn. repeat constructor; by eexists.
  - cbn. repeat constructor; by eexists.
Qed.

Lemma createStreamsU_defined config entries :
  ucfg_levelFiles config = Given (prod_map id Some <$> entries) →
  createStreamsU config
  = Normal (thresholdStreamsU config ++ flat_map (levelStreamU config) entries).
Proof.
  intros Hlf. unfold createStreamsU, thresholdStreamsU. rewrite Hlf.
  rewrite forEach_pushLevelFileU.
  by destruct (truthy_bool_key _), (truthy_string_key _).
Qed.

(** What [initLogger] hands to [pino] for an input whose [levelFiles]
    entries are all objects. *)
Lemma initLoggerU_defined config :
  Forall (fun e => is_Some e.2) (levelFiles_entries config) →
  ∃ entries,
    initLoggerU (Some config)
    = Normal {| pino_options := loggerOptionsU (mergedConfigU config);
                pino_streams :=
                  thresholdStreamsU (mergedConfigU config)
                  ++ flat_map (levelStreamU (mergedConfigU config)) entries |}.
Proof.
  intros Hentries.
  destruct (merged_levelFilesU_defined config Hentries) as [entries Hlf].
  exists entries. unfold initLoggerU. cbn [from_option id].
  by rewrite (createStreamsU_defined _ _ Hlf).
Qed.

Lemma mergedU_rotation config :
  spread_rotationU (dc_rotation defaultConfig) (ucfg_rotation (mergedConfigU config))
  = spread_rotationU (dc_rotation defaultConfig) (ucfg_rotation config).
Proof.
  unfold mergedConfigU; cbn [ucfg_rotation].
  destruct (ucfg_rotation config) as [| |[[| |?] [| |?] [| |?]]]; done.
Qed.

Lemma rotation_values config :
  let resolved := spread_rotationU (dc_rotation defaultConfig) (ucfg_rotation config) in
  read (urot_interval resolved) = rotation_value config urot_interval "1d"
  ∧ read (urot_size resolved) = rotation_value config urot_size "10M"
  ∧ read (urot_maxFiles resolved) = rotation_value config urot_maxFiles 5.
Proof.
  unfold rotation_value.
  destruct (ucfg_rotation config) as [| |[[| |?] [| |?] [| |?]]]; done.
Qed.

Lemma mergedU_level config :
  nullish (ucfg_level (mergedConfigU config)) (dc_level defaultConfig)
  = nullish (ucfg_level config) Info.
Proof. unfold mergedConfigU; cbn. by destruct (ucfg_level config). Qed.

Lemma mergedU_destination config :
  nullish (ucfg_destination (mergedConfigU config)) (dc_destination defaultConfig)
  = nullish (ucfg_destination config) (join [cwd; "logs"; "app.log"]).
Proof. unfold mergedConfigU; cbn. by destruct (ucfg_destination config). Qed.

(** The rotating sinks [createStreams] builds from a merged configuration. *)
Lemma rotating_sinksU config entries d o :
  d ∈ thresholdStreamsU (mergedConfigU config)
      ++ flat_map (levelStreamU (mergedConfigU config)) entries →
  upd_stream d = upino_roll o →
  uroll_frequency o = rotation_value config urot_interval "1d"
  ∧ uroll_size o = rotation_value config urot_size "10M"
  ∧ uroll_maxFiles o = rotation_value config urot_maxFiles 5
  ∧ uroll_mkdir o = true.
Proof.
  destruct (rotation_values config) as (Hi & Hs & Hm).
  intros Hd Ho. apply elem_of_app in Hd as [Hd|Hd].
  - unfold thresholdStreamsU in Hd. apply elem_of_app in Hd as [Hd|Hd].
    + destruct (truthy_bool_key _); [|by apply elem_of_nil in Hd].
      apply list_elem_of_singleton in Hd as ->. discriminate Ho.
    + destruct (truthy_string_key _); [|by apply elem_of_nil in Hd].
      apply list_elem_of_singleton in Hd as ->.
      unfold createRotationStreamU in Ho. cbn [upd_stream] in Ho.
      rewrite mergedU_rotation in Ho. injection Ho as <-.
      cbn [uroll_frequency uroll_size uroll_maxFiles uroll_mkdir]. by split_and!.
  - apply list_elem_of_In, in_flat_map in Hd as ([l lc] & _ & Hd).
    unfold levelStreamU in Hd. cbn [fst snd] in Hd.
    destruct (lf_enabled lc); [|done]. destruct Hd as [<-|[]].
    unfold createLevelStreamU in Ho. cbn [upd_stream] in Ho.
    rewrite mergedU_rotation in Ho. injection Ho as <-.
    cbn [uroll_frequency uroll_size uroll_maxFiles uroll_mkdir]. by split_and!.
Qed.

(** The sinks the walk over [levelFiles] pushes all have a filter and write
    to a file. *)
Lemma levelStreamU_shape config entries d :
  d ∈ flat_map (levelStreamU config) entries →
  is_Some (upd_filter d) ∧ ∃ o, upd_stream d = upino_roll o.
Proof.
  intros Hd. apply list_elem_of_In, in_flat_map in Hd as ([l lc] & _ & Hd).
  unfold levelStreamU in Hd. cbn [fst snd] in Hd.
  destruct (lf_enabled lc); [|done]. destruct Hd as [<-|[]].
  split; [by eexists|by eexists].
Qed.

(** C1 (as amended).  [initLogger] validates nothing.  For every input
    whose [levelFiles] entries are all objects it reaches its call of [pino]
    with the sinks built, and what the input holds is handed on unchanged: a
    [rotation.maxFiles], positive or not, to every rotating sink (5 when the
    input has no such key), the redaction path list, empty or not, to the
    redact option, and the level to [pino]. *)
Theorem construction_performs_no_validation (config : LoggerConfigU)
    (Hentries : Forall (fun e => is_Some e.2) (levelFiles_entries config)) :
  ∃ call : PinoCall,
    initLoggerU (Some config) = Normal call
    ∧ createStreamsU (mergedConfigU config) = Normal (pino_streams call)
    ∧ Forall (fun d =>
                match upd_stream d with
                | upino_pretty _ => True
                | upino_roll o =>
                    uroll_maxFiles o = rotation_value config urot_maxFiles 5
                end)
             (pino_streams call)
    ∧ opt_redact (pino_options call)
      = match ucfg_redaction config with
        | Given redaction =>
            Some {| redact_paths := red_paths redaction;
                    redact_censor := default "[REDACTED]" (red_censor redaction) |}
        | Absent | Undefined => None
        end
    ∧ opt_level (pino_options call)
      = match ucfg_level config with
        | Absent => Some Info
        | Undefined => None
        | Given level => Some level
        end.
Proof.
  destruct (merged_levelFilesU_defined config Hentries) as [entries Hlf].
  pose proof (createStreamsU_defined _ _ Hlf) as Hstreams.
  eexists. split; [|split_and!].
  - unfold initLoggerU. cbn [from_option id]. by rewrite Hstreams.
  - exact Hstreams.
  - cbn [pino_streams]. apply Forall_forall. intros d Hd.
    destruct (upd_stream d) as [|o] eqn:Ho; [done|].
    by destruct (rotating_sinksU config entries d o Hd Ho) as (_ & _ & ? & _).
  - cbn. by destruct (ucfg_redaction config).
  - cbn. by destruct (ucfg_level config).
Qed.

(** X5.  The primary file sink exists exactly when the merged destination is
    a non-empty string: the input's when it gives one, the default when the
    input has no such key, and none when the input sets the key to
    [undefined] or to the empty string.  When it exists it writes to that
    destination, is told its directory, and carries the input's level, or
    info. *)
Theorem primary_sink_iff_destination (config : LoggerConfigU)
    (Hentries : Forall (fun e => is_Some e.2) (levelFiles_entries config)) :
  ∃ call : PinoCall,
    initLoggerU (Some config) = Normal call
    ∧ ((∃ d o, d ∈ pino_streams call
               ∧ upd_filter d = None ∧ upd_stream d = upino_roll o)
       ↔ match ucfg_destination config with
         | Absent => join [cwd; "logs"; "app.log"] ≠ ""
         | Undefined => False
         | Given destination => destination ≠ ""
         end)
    ∧ (∀ d o, d ∈ pino_streams call →
         upd_filter d = None → upd_stream d = upino_roll o →
         uroll_file o = nullish (ucfg_destination config) (join [cwd; "logs"; "app.log"])
         ∧ uroll_dirname o = Some (dirname (uroll_file o))
         ∧ upd_level d = nullish (ucfg_level config) Info).
Proof.
  destruct (initLoggerU_defined config Hentries) as [entries Hcall].
  eexists. split; [exact Hcall|]. cbn [pino_streams].
  assert (Htruthy : truthy_string_key (ucfg_destination (mergedConfigU config)) = true
                    ↔ match ucfg_destination config with
                      | Absent => join [cwd; "logs"; "app.log"] ≠ ""
                      | Undefined => False
                      | Given destination => destination ≠ ""
                      end).
  { unfold mergedConfigU; cbn [ucfg_destination].
    destruct (ucfg_destination config) as [| |s]; cbn;
      rewrite ?negb_true_iff, ?String.eqb_neq; done. }
  set (primary := createRotationStreamU (mergedConfigU config)
                    (nullish (ucfg_level config) Info)).
  assert (Hshape : ∀ d o,
            d ∈ thresholdStreamsU (mergedConfigU config)
                ++ flat_map (levelStreamU (mergedConfigU config)) entries →
            upd_filter d = None → upd_stream d = upino_roll o →
            truthy_string_key (ucfg_destination (mergedConfigU config)) = true
            ∧ d = primary).
  { intros d o Hd Hf Ho. apply elem_of_app in Hd as [Hd|Hd].
    - unfold thresholdStreamsU in Hd. rewrite mergedU_level in Hd.
      apply elem_of_app in Hd as [Hd|Hd].
      + destruct (truthy_bool_key _); [|by apply elem_of_nil in Hd].
        apply list_elem_of_singleton in Hd as ->. discriminate Ho.
      + destruct (truthy_string_key _); [|by apply elem_of_nil in Hd].
        by apply list_elem_of_singleton in Hd as ->.
    - apply levelStreamU_shape in Hd as [[f Hsome] _]. congruence. }
  split.
  - rewrite <- Htruthy. split.
    + intros (d & o & Hd & Hf & Ho). by destruct (Hshape d o Hd Hf Ho).
    + intros Ht. exists primary. eexists. split_and!; [|done|done].
      apply elem_of_app. left. unfold thresholdStreamsU.
      rewrite mergedU_level, Ht. apply elem_of_app. right. by left.
  - intros d o Hd Hf Ho. destruct (Hshape d o Hd Hf Ho) as [_ ->].
    unfold primary, createRotationStreamU in *. cbn [upd_stream upd_level] in *.
    rewrite mergedU_destination in Ho. injection Ho as <-. done.
Qed.

(** X6.  Every rotating sink, primary or per-level, is created with [mkdir]
    on and with the rotation merged key by key: for each of [interval], [size]
    and [maxFiles], the input's value when the input has the key ([undefined]
    when it sets the key to [undefined]), and ["1d"], ["10M"], 5 when it has
    not.  There is such a sink whenever the destination, the input's or the
    default, is a non-empty string. *)
Theorem rotation_resolved_for_every_sink (config : LoggerConfigU)
    (Hentries : Forall (fun e => is_Some e.2) (levelFiles_entries config)) :
  ∃ call : PinoCall,
    initLoggerU (Some config) = Normal call
    ∧ Forall (fun d =>
                match upd_stream d with
                | upino_pretty _ => True
                | upino_roll o =>
                    uroll_frequency o = rotation_value config urot_interval "1d"
                    ∧ uroll_size o = rotation_value config urot_size "10M"
                    ∧ uroll_maxFiles o = rotation_value config urot_maxFiles 5
                    ∧ uroll_mkdir o = true
                end)
             (pino_streams call)
    ∧ (nullish (ucfg_destination config) (join [cwd; "logs"; "app.log"]) ≠ "" →
       ucfg_destination config ≠ Undefined →
       ∃ d o, d ∈ pino_streams call ∧ upd_stream d = upino_roll o).
Proof.
  destruct (initLoggerU_defined config Hentries) as [entries Hcall].
  eexists. split; [exact Hcall|]. cbn [pino_streams]. split.
  - apply Forall_forall. intros d Hd.
    destruct (upd_stream d) as [|o] eqn:Ho; [done|].
    exact (rotating_sinksU config entries d o Hd Ho).
  - intros Hne Hdef.
    assert (Ht : truthy_string_key (ucfg_destination (mergedConfigU config)) = true).
    { unfold mergedConfigU; cbn [ucfg_destination].
      destruct (ucfg_destination config) as [| |s]; cbn in Hne |- *;
        [|done|]; by rewrite negb_true_iff, String.eqb_neq. }
    exists (createRotationStreamU (mergedConfigU config)
              (nullish (ucfg_level config) Info)).
    eexists. split; [|reflexivity].
    apply elem_of_app. left. unfold thresholdStreamsU.
    rewrite mergedU_level, Ht. apply elem_of_app. right. by left.
Qed.

(** X7.  The pretty console sink exists exactly when the merged
    [prettyPrint] is true: the input's value when the input has the key (so
    not when it sets the key to [undefined]), and otherwise whether
    [NODE_ENV] differs from ["production"].  When it exists it is the first
    sink [createStreams] returns. *)
Theorem pretty_sink_follows_environment (config : LoggerConfigU)
    (Hentries : Forall (fun e => is_Some e.2) (levelFiles_entries config)) :
  let enabled :=
    match ucfg_prettyPrint config with
    | Absent => negb (bool_decide (NODE_ENV = Some "production"))
    | Undefined => false
    | Given prettyPrint => prettyPrint
    end in
  ∃ streams : list PinoDestinationU,
    createStreamsU (mergedConfigU config) = Normal streams
    ∧ ((∃ d o, d ∈ streams ∧ upd_stream d = upino_pretty o) ↔ enabled = true)
    ∧ (enabled = true →
       head streams = Some (createPrettyStreamU (nullish (ucfg_level config) Info))).
Proof.
  intros enabled.
  destruct (merged_levelFilesU_defined config Hentries) as [entries Hlf].
  eexists. split; [exact (createStreamsU_defined _ _ Hlf)|].
  assert (Hen : truthy_bool_key (ucfg_prettyPrint (mergedConfigU config)) = enabled).
  { unfold mergedConfigU, enabled; cbn. by destruct (ucfg_prettyPrint config). }
  unfold thresholdStreamsU. rewrite Hen, mergedU_level. split.
  - split.
    + intros (d & o & Hd & Ho). apply elem_of_app in Hd as [Hd|Hd].
      * apply elem_of_app in Hd as [Hd|Hd].
        -- destruct enabled; [done|by apply elem_of_nil in Hd].
        -- destruct (truthy_string_key _); [|by apply elem_of_nil in Hd].
           apply list_elem_of_singleton in Hd as ->. discriminate Ho.
      * apply levelStreamU_shape in Hd as [_ [o' Ho']]. congruence.
    + intros He. rewrite He.
      exists (createPrettyStreamU (nullish (ucfg_level config) Info)).
      eexists. split; [|reflexivity].
      apply elem_of_app. left. apply elem_of_app. left. by left.
  - intros He. by rewrite He.
Qed.

(** X14.  An entry of [levelFiles] that is [undefined] makes [createStreams]
    throw a [TypeError] when it reads [enabled] of it, so [initLogger] does
    not reach its call of [pino]. *)
Theorem undefined_levelFiles_entry_throws (config : LoggerConfigU) (l : LogLevel)
    (Hkeys : NoDup (levelFiles_entries config).*1)
    (Hentry : (l, None) ∈ levelFiles_entries config) :
  createStreamsU (mergedConfigU config) = Throw (TypeError "enabled")
  ∧ initLoggerU (Some config) = Throw (TypeError "enabled").
Proof.
  assert (Hthrow : createStreamsU (mergedConfigU config) = Throw (TypeError "enabled")).
  { unfold createStreamsU. cbn [ucfg_levelFiles mergedConfigU].
    apply (forEach_pushLevelFileU_undefined _ _ _ l).
    unfold levelFiles_entries in *.
    destruct (read (ucfg_levelFiles config)) as [ext|]; cbn in Hkeys, Hentry;
      [|by apply elem_of_nil in Hentry].
    apply entry_elem. by apply entry_spread. }
  split; [done|]. unfold initLoggerU. cbn [from_option id]. by rewrite Hthrow.
Qed.

(** *** Agreement with the first part *)

Lemma spread_with_values {K V W : Type} `{EqDecision K} (f : V → W)
    (o ext : list (K * V)) :
  spread (prod_map id f <$> o) (Some (prod_map id f <$> ext))
  = prod_map id f <$> spread o (Some ext).
Proof.
  unfold spread; cbn. revert o.
  induction ext as [|[k v] ext IH]; intros o; cbn; [done|].
  rewrite <- IH. f_equal. clear.
  induction o as [|[k' v'] o IH]; cbn; [done|].
  destruct (decide (k' = k)); cbn; [done|]. by rewrite IH.
Qed.

Lemma spread_rotationU_with_keys d (rotation : option PartialRotationConfig) :
  spread_rotationU d
    (given ((fun p => {| urot_interval := given (prot_interval p);
                         urot_size := given (prot_size p);
                         urot_maxFiles := given (prot_maxFiles p) |})
            <$> rotation))
  = {| urot_interval := Given (rot_interval (spread_rotation d rotation));
       urot_size := Given (rot_size (spread_rotation d rotation));
       urot_maxFiles := Given (rot_maxFiles (spread_rotation d rotation)) |}.
Proof. by destruct rotation as [[[?|] [?|] [?|]]|]. Qed.

Lemma mergedConfigU_with_keys config :
  mergedConfigU (with_keys config) = with_keys (mergedConfig config).
Proof.
  unfold mergedConfigU, mergedConfig, with_keys.
  cbn [ucfg_level ucfg_prettyPrint ucfg_destination ucfg_rotation ucfg_levelFiles
       ucfg_redaction ucfg_baseContext ucfg_serializers
       cfg_level cfg_prettyPrint cfg_destination cfg_rotation cfg_levelFiles
       cfg_redaction cfg_baseContext cfg_serializers].
  rewrite spread_rotationU_with_keys.
  assert (Hlf : spread (prod_map id Some <$> dc_levelFiles defaultConfig)
                  (read (given ((fun levelFiles : list (LogLevel * LevelFileConfig) =>
                                   prod_map id Some <$> levelFiles)
                                <$> cfg_levelFiles config)))
                = prod_map id Some
                  <$> spread (dc_levelFiles defaultConfig) (cfg_levelFiles config)).
  { destruct (cfg_levelFiles config) as [ext|]; [|done].
    apply (spread_with_values Some). }
  rewrite Hlf.
  by destruct (cfg_level config), (cfg_prettyPrint config), (cfg_destination config),
       (cfg_redaction config), (cfg_baseContext config), (cfg_serializers config),
       (spread_rotation (dc_rotation defaultConfig) (cfg_rotation config)).
Qed.

Lemma createStreamsU_with_keys (resolved : LoggerConfig) :
  createStreamsU (with_keys resolved)
  = Normal (with_values <$> createStreams resolved).
Proof.
  assert (Hdest : ∀ d, nullish (ucfg_destination (with_keys resolved)) d
                       = default d (cfg_destination resolved))
    by (intros d; unfold with_keys; cbn; by destruct (cfg_destination resolved)).
  assert (Hlevel : nullish (ucfg_level (with_keys resolved)) (dc_level defaultConfig)
                   = default (dc_level defaultConfig) (cfg_level resolved))
    by (unfold with_keys; cbn; by destruct (cfg_level resolved)).
  assert (Hpretty : truthy_bool_key (ucfg_prettyPrint (with_keys resolved))
                    = truthy_bool (cfg_prettyPrint resolved))
    by (unfold with_keys; cbn; by destruct (cfg_prettyPrint resolved)).
  assert (Hprimary : truthy_string_key (ucfg_destination (with_keys resolved))
                     = truthy_string (cfg_destination resolved))
    by (unfold with_keys; cbn; by destruct (cfg_destination resolved)).
  assert (Hls : ∀ l destination,
            createLevelStreamU l destination (ucfg_rotation (with_keys resolved))
            = with_values (createLevelStream l destination (cfg_rotation resolved))).
  { intros l destination. unfold createLevelStreamU, createLevelStream, with_values.
    cbn [ucfg_rotation with_keys pd_level pd_stream pd_filter roll_file roll_frequency
         roll_size roll_maxFiles roll_mkdir roll_dirname].
    by rewrite spread_rotationU_with_keys. }
  assert (Hrs : ∀ level, createRotationStreamU (with_keys resolved) level
                         = with_values (createRotationStream resolved level)).
  { intros level. unfold createRotationStreamU, createRotationStream, with_values.
    rewrite Hdest.
    cbn [ucfg_rotation with_keys pd_level pd_stream pd_filter roll_file roll_frequency
         roll_size roll_maxFiles roll_mkdir roll_dirname].
    by rewrite spread_rotationU_with_keys. }
  assert (Hpush : ∀ levelFiles streams,
    forEach (pushLevelFileU (with_keys resolved)) (prod_map id Some <$> levelFiles)
      (with_values <$> streams)
    = Normal (with_values <$> fold_left (pushLevelFile resolved) levelFiles streams)).
  { induction levelFiles as [|[l lc] levelFiles IH]; intros streams; [done|].
    cbn [fmap list_fmap forEach fold_left pushLevelFileU pushLevelFile prod_map id
         fst snd].
    destruct (lf_enabled lc); [|apply IH].
    rewrite <- IH, fmap_app, Hdest, Hls. done. }
  unfold createStreamsU, createStreams.
  rewrite Hlevel, Hpretty, Hprimary, Hrs.
  assert (Hlf : ucfg_levelFiles (with_keys resolved)
                = given ((fun levelFiles : list (LogLevel * LevelFileConfig) =>
                            prod_map id Some <$> levelFiles)
                         <$> cfg_levelFiles resolved)) by done.
  rewrite Hlf.
  destruct (cfg_levelFiles resolved) as [levelFiles|]; cbn [fmap option_fmap option_map given].
  - rewrite <- Hpush. f_equal.
    by destruct (truthy_bool _), (truthy_string _).
  - by destruct (truthy_bool _), (truthy_string _).
Qed.

(** On an input that sets no key to [undefined], [initLogger] read with
    [undefined] in view hands to [pino] the options and the sinks of the
    logger of the first part. *)
Lemma initLoggerU_with_keys (config : LoggerConfig) :
  initLoggerU (Some (with_keys config))
  = Normal {| pino_options := lg_options (initLogger (Some config));
              pino_streams := with_values <$> lg_streams (initLogger (Some config)) |}.
Proof.
  unfold initLoggerU. cbn [from_option id].
  rewrite mergedConfigU_with_keys, createStreamsU_with_keys. f_equal. f_equal.
  unfold initLogger, pino, loggerOptionsU, loggerOptions, with_keys. cbn.
  by destruct (cfg_level config), (cfg_redaction config), (cfg_baseContext config),
       (cfg_serializers config).
Qed.

End Toolkit.

(** * The module run in a concrete environment

    Working directory [/srv/app], [NODE_ENV] unset or ["production"], and the
    simple path functions above. *)

(** C4 on [{ levelFiles: { warn: on, error: off } }] and the same map with its
    keys swapped. *)
Lemma createStreams_fixed_order_witness :
  let written := [ (Warn, {| lf_enabled := true; lf_destination := None |});
                   (Error, {| lf_enabled := false; lf_destination := None |}) ] in
  let swapped := [ (Error, {| lf_enabled := false; lf_destination := None |});
                   (Warn, {| lf_enabled := true; lf_destination := None |}) ] in
  NoDup written.*1
  ∧ written ≡ₚ swapped
  ∧ createStreams "/srv/app" None slash_dirname slash_join
      (mergedConfig "/srv/app" None slash_join (with_levelFiles emptyConfig written))
    = createStreams "/srv/app" None slash_dirname slash_join
        (mergedConfig "/srv/app" None slash_join (with_levelFiles emptyConfig swapped)).
Proof.
  intros written swapped.
  assert (Hkeys : NoDup written.*1) by compute_done.
  assert (Horder : written ≡ₚ swapped) by apply perm_swap.
  split; [exact Hkeys|]. split; [exact Horder|].
  exact (proj2 (proj2 (createStreams_fixed_order "/srv/app" None slash_dirname
                         slash_join emptyConfig written swapped Hkeys Horder))).
Defined.

(** C6 on [{ rotation: { size: '50M' } }]. *)
Lemma rotation_merged_per_subkey_witness :
  cfg_rotation config_size_50M
  = Some {| prot_interval := None; prot_size := Some "50M"; prot_maxFiles := None |}
  ∧ cfg_rotation (mergedConfig "/srv/app" None slash_join config_size_50M)
    = Some (as_partial {| rot_interval := "1d"; rot_size := "50M"; rot_maxFiles := 5 |})
  ∧ Forall (fun d =>
              match pd_stream d with
              | pino_pretty _ => True
              | pino_roll o =>
                  roll_frequency o = "1d" ∧ roll_size o = "50M" ∧ roll_maxFiles o = 5
              end)
           (lg_streams (initLogger "/srv/app" None slash_dirname slash_join
                          (Some config_size_50M))).
Proof.
  split; [reflexivity|].
  exact (rotation_merged_per_subkey "/srv/app" None slash_dirname slash_join
           config_size_50M eq_refl).
Defined.


(** C5 from the initial world: two [getLogger] calls with different
    configurations, then [resetLogger] and a third call. *)
Lemma getLogger_idempotent_until_reset_witness :
  let run := getLogger "/srv/app" None slash_dirname slash_join in
  let w1 := (run (Some config_error_file) initial_world).2 in
  let w2 := (run (Some config_size_50M) w1).2 in
  let w4 := (run None (resetLogger w2).2).2 in
  world_ok initial_world
  ∧ (run (Some config_size_50M) w1).1 = (run (Some config_error_file) initial_world).1
  ∧ w2 = w1
  ∧ heap w2 !! 0%nat
    = Some (initLogger "/srv/app" None slash_dirname slash_join (Some config_error_file))
  ∧ (run None (resetLogger w2).2).1 ≠ (run (Some config_error_file) initial_world).1
  ∧ heap w4 !! (run None (resetLogger w2).2).1
    = Some (initLogger "/srv/app" None slash_dirname slash_join None).
Proof.
  intros run w1 w2 w4.
  assert (Hok : world_ok initial_world) by exact I.
  pose proof (getLogger_idempotent_until_reset "/srv/app" None slash_dirname slash_join
                initial_world (Some config_error_file) (Some config_size_50M) None Hok)
    as (H1 & H2 & H3 & H4 & H5 & _).
  split_and!; [exact Hok|exact H1|exact H2|exact (H3 eq_refl)|exact H4|exact H5].
Defined.

(** C2 with the error file enabled and a primary destination: a warn event
    reaches the primary sink only, an error event reaches both. *)
Lemma per_level_exclusivity_witness :
  let lg := initLogger "/srv/app" (Some "production") slash_dirname slash_join
              (Some config_error_file) in
  let resolved := mergedConfig "/srv/app" (Some "production") slash_join
                    config_error_file in
  let primary := createRotationStream "/srv/app" (Some "production") slash_dirname
                   slash_join resolved Info in
  let errorSink := createLevelStream "/srv/app" (Some "production") slash_join
                     Error "logs/error.log" (cfg_rotation resolved) in
  lg_streams lg = [primary; errorSink]
  ∧ reached lg Warn ∅ (Some "disk is filling up") = [primary]
  ∧ reached lg Error ∅ (Some "disk is full") = [primary; errorSink]
  ∧ (∀ explicitLevel obj msg,
       (errorSink ∈ reached lg explicitLevel obj msg ↔ explicitLevel = Error)
       ∧ (primary ∈ reached lg explicitLevel obj msg
          ↔ at_least_as_severe explicitLevel Info = true)).
Proof.
  intros lg resolved primary errorSink.
  split_and!; [reflexivity|reflexivity|reflexivity|].
  exact (proj2 (proj2 (proj2 (proj2
           (per_level_exclusivity "/srv/app" (Some "production")
              slash_dirname slash_join config_error_file Error
              {| lf_enabled := true; lf_destination := None |}
              eq_refl eq_refl eq_refl))))).
Defined.

(** C3 on the default singleton: after [setLevel('error')] a warn event
    reaches no sink and a fatal event reaches the pretty, primary and fatal
    sinks. *)
Lemma setLevel_moves_threshold_only_witness :
  let lg := initLogger "/srv/app" None slash_dirname slash_join None in
  let w' := (setLevel "/srv/app" None slash_dirname slash_join Error initial_world).2 in
  let lg' := Logger_set_level lg Error in
  heap (getLogger "/srv/app" None slash_dirname slash_join None initial_world).2 !! 0%nat
  = Some lg
  ∧ lg_streams lg
    = createStreams "/srv/app" None slash_dirname slash_join
        (mergedConfig "/srv/app" None slash_join emptyConfig)
  ∧ heap w' !! 0%nat = Some lg'
  ∧ lg_streams lg' = lg_streams lg
  ∧ length (reached lg Warn ∅ None) = 2%nat
  ∧ reached lg' Warn ∅ None = []
  ∧ length (reached lg' Fatal ∅ None) = 3%nat.
Proof.
  intros lg w' lg'.
  pose proof (setLevel_moves_threshold_only "/srv/app" None slash_dirname slash_join
                initial_world Error emptyConfig lg eq_refl eq_refl)
    as (_ & H2 & _ & _ & H5 & _).
  split_and!; [reflexivity|reflexivity|exact H2|exact H5|reflexivity..].
Defined.

(** C10 after a [createLogger] call: [setLevel] and [log] build and use the
    default singleton (reference 1) and leave the created logger (reference 0)
    as it was. *)
Lemma ambient_operations_use_singleton_witness :
  let run_createLogger := createLogger "/srv/app" None slash_dirname slash_join in
  let run_setLevel := setLevel "/srv/app" None slash_dirname slash_join in
  let run_log := log "/srv/app" None slash_dirname slash_join in
  let own := initLogger "/srv/app" None slash_dirname slash_join
               (Some config_error_file) in
  let w := (run_createLogger config_error_file initial_world).2 in
  world_ok w
  ∧ loggerInstance w = None
  ∧ heap w !! 0%nat = Some own
  ∧ heap (run_setLevel Debug w).2 !! 0%nat = Some own
  ∧ heap (run_setLevel Debug w).2 !! 1%nat
    = Some (Logger_set_level
              (initLogger "/srv/app" None slash_dirname slash_join (Some emptyConfig))
              Debug)
  ∧ heap (run_log Info (Text "started") None w).2 !! 0%nat = Some own
  ∧ calls (run_log Info (Text "started") None w).2
    = [{| call_logger := 1; call_level := Info; call_obj := ∅;
          call_msg := Some "started" |}].
Proof.
  intros run_createLogger run_setLevel run_log own w.
  assert (Hok : world_ok w) by exact I.
  pose proof (ambient_operations_use_singleton "/srv/app" None slash_dirname slash_join
                w Hok) as (_ & _ & _ & _ & _ & _ & _ & Hframe & _).
  destruct (Hframe 0%nat own ltac:(discriminate) eq_refl) as (Hset & _ & Hlog).
  split_and!;
    [exact Hok|reflexivity|reflexivity|exact (Hset Debug)|reflexivity
    |exact (proj1 (Hlog Info (Text "started") None))|reflexivity].
Defined.



(** X9 on the world left by a first [getLogger()]: reference 0 stays the
    singleton through a [getLogger] with a configuration, a [createLogger], a
    [setLevel] and a [log]. *)
Lemma singleton_kept_until_reset_witness :
  let w := (getLogger "/srv/app" None slash_dirname slash_join None initial_world).2 in
  loggerInstance w = Some 0%nat
  ∧ (getLogger "/srv/app" None slash_dirname slash_join (Some config_size_50M) w).1
    = 0%nat
  ∧ loggerInstance (createLogger "/srv/app" None slash_dirname slash_join
                      config_error_file w).2 = Some 0%nat
  ∧ loggerInstance (setLevel "/srv/app" None slash_dirname slash_join Debug w).2
    = Some 0%nat
  ∧ loggerInstance (log "/srv/app" None slash_dirname slash_join
                      Info (Text "started") None w).2 = Some 0%nat
  ∧ loggerInstance (resetLogger w).2 = None.
Proof.
  intros w.
  pose proof (singleton_kept_until_reset "/srv/app" None slash_dirname slash_join
                w 0%nat eq_refl) as (Hg & Hc & Hs & _ & Hl & Hr).
  split_and!.
  - reflexivity.
  - exact (proj1 (Hg (Some config_size_50M))).
  - exact (Hc config_error_file).
  - exact (Hs Debug).
  - exact (proj1 (Hl Info (Text "started") None)).
  - exact Hr.
Defined.

(** X10 on a logger made by [createLogger]: it is still behind reference 0,
    with the sinks it was built with, after [setLevel], [child] and
    [resetLogger]. *)
Lemma loggers_are_never_rebuilt_witness :
  let own := initLogger "/srv/app" None slash_dirname slash_join
               (Some config_error_file) in
  let w := (createLogger "/srv/app" None slash_dirname slash_join
              config_error_file initial_world).2 in
  heap w !! 0%nat = Some own
  ∧ heap (resetLogger w).2 !! 0%nat = Some own
  ∧ heap (child "/srv/app" None slash_dirname slash_join ∅ w).2 !! 0%nat = Some own
  ∧ ∃ lg', heap (setLevel "/srv/app" None slash_dirname slash_join Trace w).2 !! 0%nat
           = Some lg'
           ∧ lg_streams lg' = lg_streams own.
Proof.
  intros own w.
  pose proof (loggers_are_never_rebuilt "/srv/app" None slash_dirname slash_join
                w 0%nat own eq_refl) as (_ & _ & Hr & Hc & _ & Hs).
  split_and!.
  - reflexivity.
  - exact Hr.
  - exact (Hc ∅).
  - destruct (Hs Trace) as (lg' & Hlg' & Hstreams & _). by exists lg'.
Defined.

(** X13 from the initial world: after [info('started')] a
    [getLogger({ rotation: { size: '50M' } })] returns the default logger at
    reference 0. *)
Lemma first_ambient_call_fixes_defaults_witness :
  let w1 := (info "/srv/app" None slash_dirname slash_join
               (Text "started") None initial_world).2 in
  loggerInstance initial_world = None
  ∧ (getLogger "/srv/app" None slash_dirname slash_join (Some config_size_50M) w1).1
    = 0%nat
  ∧ heap w1 !! 0%nat
    = Some (initLogger "/srv/app" None slash_dirname slash_join None).
Proof.
  intros w1.
  pose proof (first_ambient_call_fixes_defaults "/srv/app" None slash_dirname
                slash_join initial_world config_size_50M eq_refl)
    as (Hl & _ & _).
  destruct (Hl Info (Text "started") None) as (Hget & Hheap & Hsame).
  split_and!.
  - reflexivity.
  - change w1 with (createLogFunction "/srv/app" None slash_dirname slash_join Info
                      (Text "started") None initial_world).2.
    rewrite Hsame. exact (f_equal fst Hget).
  - change w1 with (createLogFunction "/srv/app" None slash_dirname slash_join Info
                      (Text "started") None initial_world).2.
    rewrite Hsame. exact Hheap.
Defined.

(** C1 on [{ prettyPrint: false, redaction: { paths: [] } }]: the call of
    [pino] is reached and the empty path list is in its redact option. *)
Lemma construction_performs_no_validation_witness :
  Forall (fun e : LogLevel * option LevelFileConfig => is_Some e.2)
         (levelFiles_entries config_no_paths)
  ∧ ∃ call : PinoCall,
      initLoggerU "/srv/app" None slash_dirname slash_join (Some config_no_paths)
      = Normal call
      ∧ opt_redact (pino_options call)
        = Some {| redact_paths := []; redact_censor := "[REDACTED]" |}
      ∧ opt_level (pino_options call) = Some Info.
Proof.
  assert (Hentries : Forall (fun e : LogLevel * option LevelFileConfig => is_Some e.2)
                            (levelFiles_entries config_no_paths))
    by apply Forall_nil_2.
  split; [exact Hentries|].
  destruct (construction_performs_no_validation "/srv/app" None slash_dirname
              slash_join config_no_paths Hentries)
    as (call & Hcall & _ & _ & Hredact & Hlevel).
  exists call. split_and!; [exact Hcall|exact Hredact|exact Hlevel].
Defined.

(** C1, as the spec states it, fails.  The specification rejects
    [{ rotation: { maxFiles: 0 } }], naming [rotation.maxFiles], before any
    sink is built; [initLogger] reaches its call of [pino] with three rotating
    sinks built with [maxFiles] 0.  The specification rejects
    [{ redaction: { paths: [] } }], naming [redaction.paths]; [initLogger]
    reaches its call of [pino] with three sinks and an empty redact path
    list. *)
Lemma invalid_configuration_is_accepted :
  let run := initLoggerU "/srv/app" None slash_dirname slash_join in
  spec_offending_field config_maxFiles_0 = Some "rotation.maxFiles"
  ∧ (∃ call : PinoCall,
       run (Some config_maxFiles_0) = Normal call
       ∧ map (fun d => match upd_stream d with
                       | upino_pretty _ => None
                       | upino_roll o => Some (uroll_file o, uroll_maxFiles o)
                       end)
             (pino_streams call)
         = [ Some ("/srv/app/logs/app.log", Some 0);
             Some ("/srv/app/logs/fatal.log", Some 0);
             Some ("/srv/app/logs/error.log", Some 0) ])
  ∧ spec_offending_field config_no_paths = Some "redaction.paths"
  ∧ (∃ call : PinoCall,
       run (Some config_no_paths) = Normal call
       ∧ length (pino_streams call) = 3%nat
       ∧ opt_redact (pino_options call)
         = Some {| redact_paths := []; redact_censor := "[REDACTED]" |}).
Proof.
  intros run. split_and!.
  - reflexivity.
  - eexists. split; reflexivity.
  - reflexivity.
  - eexists. split_and!; reflexivity.
Qed.

(** X5 on [{ prettyPrint: undefined, destination: undefined, ... }]: no
    primary sink is built, although the default destination is not empty. *)
Lemma primary_sink_iff_destination_witness :
  Forall (fun e : LogLevel * option LevelFileConfig => is_Some e.2)
         (levelFiles_entries config_undefined_keys)
  ∧ ∃ call : PinoCall,
      initLoggerU "/srv/app" None slash_dirname slash_join (Some config_undefined_keys)
      = Normal call
      ∧ ¬ (∃ d o, d ∈ pino_streams call
                  ∧ upd_filter d = None ∧ upd_stream d = upino_roll o).
Proof.
  assert (Hentries : Forall (fun e : LogLevel * option LevelFileConfig => is_Some e.2)
                            (levelFiles_entries config_undefined_keys))
    by apply Forall_nil_2.
  split; [exact Hentries|].
  destruct (primary_sink_iff_destination "/srv/app" None slash_dirname slash_join
              config_undefined_keys Hentries) as (call & Hcall & Hiff & _).
  exists call. split; [exact Hcall|exact (proj1 Hiff)].
Defined.

(** X6 on [{ rotation: { size: undefined, maxFiles: 3 }, ... }]: the two
    rotating sinks get the default interval, an [undefined] size and
    [maxFiles] 3.  On [{ prettyPrint: false, rotation: { maxFiles: 0 } }]
    there is a rotating sink. *)
Lemma rotation_resolved_for_every_sink_witness :
  Forall (fun e : LogLevel * option LevelFileConfig => is_Some e.2)
         (levelFiles_entries config_undefined_keys)
  ∧ (∃ call : PinoCall,
       initLoggerU "/srv/app" None slash_dirname slash_join
         (Some config_undefined_keys)
       = Normal call
       ∧ length (pino_streams call) = 2%nat
       ∧ Forall (fun d =>
                   match upd_stream d with
                   | upino_pretty _ => True
                   | upino_roll o =>
                       uroll_frequency o = Some "1d"
                       ∧ uroll_size o = None
                       ∧ uroll_maxFiles o = Some 3
                       ∧ uroll_mkdir o = true
                   end)
                (pino_streams call))
  ∧ (∃ call : PinoCall,
       initLoggerU "/srv/app" None slash_dirname slash_join (Some config_maxFiles_0)
       = Normal call
       ∧ ∃ d o, d ∈ pino_streams call ∧ upd_stream d = upino_roll o).
Proof.
  assert (Hentries : Forall (fun e : LogLevel * option LevelFileConfig => is_Some e.2)
                            (levelFiles_entries config_undefined_keys))
    by apply Forall_nil_2.
  assert (Hentries0 : Forall (fun e : LogLevel * option LevelFileConfig => is_Some e.2)
                             (levelFiles_entries config_maxFiles_0))
    by apply Forall_nil_2.
  split; [exact Hentries|]. split.
  - destruct (rotation_resolved_for_every_sink "/srv/app" None slash_dirname
                slash_join config_undefined_keys Hentries)
      as (call & Hcall & Hall & _).
    exists call. split_and!; [exact Hcall| |exact Hall].
    injection Hcall as <-. reflexivity.
  - destruct (rotation_resolved_for_every_sink "/srv/app" None slash_dirname
                slash_join config_maxFiles_0 Hentries0)
      as (call & Hcall & _ & Hex).
    exists call. split; [exact Hcall|].
    apply Hex; discriminate.
Defined.

(** X7 with [NODE_ENV] unset: the empty input gets the pretty sink first,
    [{ prettyPrint: undefined, ... }] gets none. *)
Lemma pretty_sink_follows_environment_witness :
  Forall (fun e : LogLevel * option LevelFileConfig => is_Some e.2)
         (levelFiles_entries config_undefined_keys)
  ∧ (∃ streams : list PinoDestinationU,
       createStreamsU "/srv/app" None slash_dirname slash_join
         (mergedConfigU "/srv/app" None slash_join config_undefined_keys)
       = Normal streams
       ∧ ¬ (∃ d o, d ∈ streams ∧ upd_stream d = upino_pretty o))
  ∧ (∃ streams : list PinoDestinationU,
       createStreamsU "/srv/app" None slash_dirname slash_join
         (mergedConfigU "/srv/app" None slash_join emptyConfigU)
       = Normal streams
       ∧ head streams = Some (createPrettyStreamU Info)).
Proof.
  assert (Hentries : Forall (fun e : LogLevel * option LevelFileConfig => is_Some e.2)
                            (levelFiles_entries config_undefined_keys))
    by apply Forall_nil_2.
  assert (Hempty : Forall (fun e : LogLevel * option LevelFileConfig => is_Some e.2)
                          (levelFiles_entries emptyConfigU))
    by apply Forall_nil_2.
  split; [exact Hentries|]. split.
  - destruct (pretty_sink_follows_environment "/srv/app" None slash_dirname slash_join
                config_undefined_keys Hentries) as (streams & Hstreams & Hiff & _).
    exists streams. split; [exact Hstreams|].
    intros Hex. discriminate (proj1 Hiff Hex).
  - destruct (pretty_sink_follows_environment "/srv/app" None slash_dirname slash_join
                emptyConfigU Hempty) as (streams & Hstreams & _ & Hhead).
    exists streams. split; [exact Hstreams|exact (Hhead eq_refl)].
Defined.

(** X14 on [{ levelFiles: { warn: undefined } }]. *)
Lemma undefined_levelFiles_entry_throws_witness :
  NoDup (levelFiles_entries config_warn_undefined).*1
  ∧ (Warn, None) ∈ levelFiles_entries config_warn_undefined
  ∧ initLoggerU "/srv/app" None slash_dirname slash_join (Some config_warn_undefined)
    = Throw (TypeError "enabled").
Proof.
  assert (Hkeys : NoDup (levelFiles_entries config_warn_undefined).*1)
    by compute_done.
  assert (Hentry : (Warn, None) ∈ levelFiles_entries config_warn_undefined) by left.
  split_and!; [exact Hkeys|exact Hentry|].
  exact (proj2 (undefined_levelFiles_entry_throws "/srv/app" None slash_dirname
                  slash_join config_warn_undefined Warn Hkeys Hentry)).
Defined.
